(** * MessageSplitter: separating message headers from the body

    A shallow embedding of [lib/message-splitter.js].  The class is a Node
    [Transform] stream: chunks are written to it, a ['headers'] event carries
    the parsed header block, and everything behind the blank line is pushed
    downstream.

    Conventions of the embedding
    - a [Buffer] is a [list byte]; a JS number is a [Z]; an index that a loop
      counts is a [nat];
    - a read outside a buffer or an array is [None] ([undefined]); a strict
      comparison [=== 0x0A] of [undefined] or [false] with a number is false;
    - text is a [string] of 8-bit characters.  [toString('utf-8')] is the
      identity on 7-bit input, and no byte above 0x7F decodes to CR, LF,
      space, tab or colon, so line splitting and folding are exact on every
      input; [toLowerCase] and [trim] are the ASCII ones, which is what
      header names use;
    - mutation of [this], the events seen by listeners, and the
      [setImmediate] queue are threaded through a small state monad with
      exceptions. *)

From Stdlib Require Import ZArith Lia List Bool.
From Stdlib.Strings Require Import String Ascii Byte.
From stdpp Require Import base list.

Local Open Scope Z_scope.
Local Open Scope list_scope.

(** ** Text: the String methods that [parseHeaders] calls *)

Module Text.

Definition CR : ascii := "013"%char.
Definition LF : ascii := "010"%char.
Definition TAB : ascii := "009"%char.
Definition SP : ascii := " "%char.
Definition COLON : ascii := ":"%char.

(** The one-character strings [' '], ['\t'] and ['\n'] of the source. *)
Definition space : string := String SP EmptyString.
Definition tab : string := String TAB EmptyString.
Definition newline : string := String LF EmptyString.

(** The string ['\r\n']. *)
Definition crlf : string := String CR (String LF EmptyString).

(** [s.charAt(n)]: the empty string when [n] is out of range. *)
Definition charAt (s : string) (n : nat) : string :=
  match String.get n s with
  | Some c => String c EmptyString
  | None => EmptyString
  end.

(** [s.indexOf(c)] for a one-character needle: [-1] when absent. *)
Fixpoint indexOf (s : string) (c : ascii) : Z :=
  match s with
  | EmptyString => -1
  | String d rest =>
      if Ascii.eqb d c then 0
      else let r := indexOf rest c in if r <? 0 then -1 else r + 1
  end.

(** [s.substr(start, length)]: a negative [start] counts from the end, a
    [length] that is not positive gives the empty string. *)
Definition substr (s : string) (start len : Z) : string :=
  let size := Z.of_nat (String.length s) in
  let from := if start <? 0 then Z.max (size + start) 0 else Z.min start size in
  if len <=? 0 then EmptyString
  else String.substring (Z.to_nat from) (Z.to_nat len) s.

Definition lower (c : ascii) : ascii :=
  let n := nat_of_ascii c in
  if (Nat.leb 65 n && Nat.leb n 90)%bool then ascii_of_nat (n + 32) else c.

(** [s.toLowerCase()] on characters below 0x80: [A] to [Z] are lowered and
    every other character is kept.  The source also lowers letters above
    0x7F; those are kept here. *)
Fixpoint toLowerCase (s : string) : string :=
  match s with
  | EmptyString => EmptyString
  | String c rest => String (lower c) (toLowerCase rest)
  end.

Definition is_space (c : ascii) : bool :=
  let n := nat_of_ascii c in
  (Nat.eqb n 32 || (Nat.leb 9 n && Nat.leb n 13))%bool.

Fixpoint trimStart (s : string) : string :=
  match s with
  | EmptyString => EmptyString
  | String c rest => if is_space c then trimStart rest else s
  end.

Fixpoint trimEnd (s : string) : string :=
  match s with
  | EmptyString => EmptyString
  | String c rest =>
      match trimEnd rest with
      | EmptyString => if is_space c then EmptyString else String c EmptyString
      | r => String c r
      end
  end.

(** [s.trim()] on characters below 0x80: TAB, LF, VT, FF, CR and space are
    white space.  The source also strips Unicode white space above 0x7F;
    that is kept here. *)
Definition trim (s : string) : string := trimEnd (trimStart s).

Definition is_break (c : ascii) : bool := (Ascii.eqb c CR || Ascii.eqb c LF)%bool.

(** [s.replace(/[\r\n]+$/, '')]: the leftmost match of the pattern is the
    whole trailing run of CR and LF characters. *)
Fixpoint replace_trailing_breaks (s : string) : string :=
  match s with
  | EmptyString => EmptyString
  | String c rest =>
      match replace_trailing_breaks rest with
      | EmptyString => if is_break c then EmptyString else String c EmptyString
      | r => String c r
      end
  end.

(** [s.split(/\r?\n/)]: a separator is a LF, together with the CR right
    before it when there is one.  The result is never empty: the pattern does
    not match the empty string, so [''.split(...)] is [['']]. *)
Fixpoint split_lines (s : string) : list string :=
  match s with
  | EmptyString => [EmptyString]
  | String c rest =>
      if Ascii.eqb c LF then EmptyString :: split_lines rest
      else
        match rest with
        | String d rest' =>
            if (Ascii.eqb c CR && Ascii.eqb d LF)%bool
            then EmptyString :: split_lines rest'
            else match split_lines rest with
                 | l :: ls => String c l :: ls
                 | [] => [String c EmptyString]
                 end
        | EmptyString => [String c EmptyString]
        end
  end.

End Text.

(** ** Buffers *)

Abbreviation Buffer := (list byte).

Module Buf.

(** [buf.toString('utf-8')] on bytes below 0x80, each of which is the
    character of the same code.  A byte above 0x7F is kept as one character
    here, where the source decodes a UTF-8 sequence or puts U+FFFD. *)
Definition toString (b : Buffer) : string := string_of_list_byte b.

(** [Buffer.from(s)] *)
Definition from (s : string) : Buffer := list_byte_of_string s.

(** [Buffer.alloc(n)] *)
Definition alloc (n : nat) : Buffer := replicate n x00.

(** A slice index as JS clamps it: negative counts from the end. *)
Definition clamp (len : nat) (k : Z) : nat :=
  if k <? 0 then Z.to_nat (Z.max (Z.of_nat len + k) 0)
  else Z.to_nat (Z.min k (Z.of_nat len)).

(** [buf.slice(start, end)] *)
Definition slice (b : Buffer) (start stop : Z) : Buffer :=
  let s := clamp (length b) start in
  let e := clamp (length b) stop in
  take (e - s) (drop s b).

(** [buf.slice(start)] *)
Definition slice_from (b : Buffer) (start : Z) : Buffer :=
  drop (clamp (length b) start) b.

(** [Buffer.concat(list, totalLength)]: the chunks in order, cut at
    [totalLength] or padded with zero bytes up to it.  A negative
    [totalLength] is coerced to a huge unsigned length, which the allocation
    rejects with a RangeError: [None]. *)
Definition concat (chunks : list Buffer) (totalLength : Z) : option Buffer :=
  if totalLength <? 0 then None
  else
    let n := Z.to_nat totalLength in
    Some (take n (List.concat chunks ++ replicate n x00)).

(** [x === b] for a value read from a buffer and a number literal. *)
Definition strictEq (x : option byte) (b : byte) : bool :=
  match x with
  | Some y => Byte.eqb y b
  | None => false
  end.

End Buf.

(** ** The header parser *)

Record HeaderEntry := mkEntry { key : string; line : string }.

(** An element of the [lines] array: a string until the loop of
    [parseHeaders] reaches it, a [{key, line}] object afterwards. *)
Inductive Line :=
| Str (s : string)
| Obj (e : HeaderEntry).

(** What [+] makes of an array element on its left or right. *)
Definition Line_toString (l : Line) : string :=
  match l with
  | Str s => s
  | Obj _ => "[object Object]"%string
  end.

(** [_normalizeHeader(key)]: [(key || '').toLowerCase().trim()] *)
Definition _normalizeHeader (key : string) : string :=
  Text.trim (Text.toLowerCase key).

(** The header name of a line and the entry made of it (lines 164-169). *)
Definition entry_of (line : string) : HeaderEntry :=
  let key := _normalizeHeader (Text.substr line 0 (Text.indexOf line Text.COLON)) in
  {| key := key; line := line |}.

(** The test [chr === ' ' || chr === '\t'] on [chr = line.charAt(0)]. *)
Definition is_folded (line : string) : bool :=
  let chr := Text.charAt line 0 in
  (String.eqb chr Text.space || String.eqb chr Text.tab)%bool.

(** The loop [for (let i = lines.length - 1; i >= 0; i--)], entered with
    [n = i + 1].  [None] is a TypeError: [charAt] called on [lines[i]] when
    it is not a string or lies outside the array.  [lines[i - 1]] lies inside
    the array whenever [lines[i]] does. *)
Fixpoint parseHeaders_loop (n : nat) (lines : list Line) : option (list Line) :=
  match n with
  | O => Some lines
  | S i =>
      match lines !! i with
      | Some (Str li) =>
          if (negb (Nat.eqb i 0) && is_folded li)%bool then
            let prev := from_option Line_toString "undefined"%string
                                    (lines !! (i - 1)%nat) in
            let merged := (prev ++ Text.newline ++ li)%string in
            parseHeaders_loop i (delete i (<[(i - 1)%nat := Str merged]> lines))
          else
            parseHeaders_loop i (<[i := Obj (entry_of li)]> lines)
      | _ => None
      end
  end.

(** [parseHeaders(headers)] *)
Definition parseHeaders (headers : Buffer) : option (list Line) :=
  let lines :=
    Text.split_lines (Text.replace_trailing_breaks (Buf.toString headers)) in
  parseHeaders_loop (length lines) (Str <$> lines).

(** ** The stream object and what it does to the outside *)

Record MessageSplitter := mkSplitter {
  lastBytes : Buffer;
  headersParsed : bool;
  headerBytes : Z;
  headerChunks : option (list Buffer);   (* [null] once the chunks are joined *)
  rawHeaders : option Buffer;            (* [false] until then *)
  bodySize : Z;
  curLinePos : option Z;
  headers : option (list Line)
}.

(** [constructor(options)] *)
Definition constructor : MessageSplitter :=
  {| lastBytes := Buf.alloc 4;
     headersParsed := false;
     headerBytes := 0;
     headerChunks := Some [];
     rawHeaders := None;
     bodySize := 0;
     curLinePos := None;
     headers := None |}.

Definition set_lastBytes (v : Buffer) (t : MessageSplitter) : MessageSplitter :=
  mkSplitter v (headersParsed t) (headerBytes t) (headerChunks t)
             (rawHeaders t) (bodySize t) (curLinePos t) (headers t).
Definition set_headersParsed (v : bool) (t : MessageSplitter) : MessageSplitter :=
  mkSplitter (lastBytes t) v (headerBytes t) (headerChunks t)
             (rawHeaders t) (bodySize t) (curLinePos t) (headers t).
Definition set_headerBytes (v : Z) (t : MessageSplitter) : MessageSplitter :=
  mkSplitter (lastBytes t) (headersParsed t) v (headerChunks t)
             (rawHeaders t) (bodySize t) (curLinePos t) (headers t).
Definition set_headerChunks (v : option (list Buffer)) (t : MessageSplitter) : MessageSplitter :=
  mkSplitter (lastBytes t) (headersParsed t) (headerBytes t) v
             (rawHeaders t) (bodySize t) (curLinePos t) (headers t).
Definition set_rawHeaders (v : option Buffer) (t : MessageSplitter) : MessageSplitter :=
  mkSplitter (lastBytes t) (headersParsed t) (headerBytes t) (headerChunks t)
             v (bodySize t) (curLinePos t) (headers t).
Definition set_bodySize (v : Z) (t : MessageSplitter) : MessageSplitter :=
  mkSplitter (lastBytes t) (headersParsed t) (headerBytes t) (headerChunks t)
             (rawHeaders t) v (curLinePos t) (headers t).
Definition set_curLinePos (v : option Z) (t : MessageSplitter) : MessageSplitter :=
  mkSplitter (lastBytes t) (headersParsed t) (headerBytes t) (headerChunks t)
             (rawHeaders t) (bodySize t) v (headers t).
Definition set_headers (v : option (list Line)) (t : MessageSplitter) : MessageSplitter :=
  mkSplitter (lastBytes t) (headersParsed t) (headerBytes t) (headerChunks t)
             (rawHeaders t) (bodySize t) (curLinePos t) v.

(** What a consumer of the stream observes, in the order it observes it. *)
Inductive Event :=
| EvHeaders (h : list Line)     (* [this.emit('headers', h)] *)
| EvData (chunk : Buffer)       (* [this.push(chunk)]: body bytes downstream *)
| EvError.                      (* [callback(E)]: the stream's error channel *)

(** A function handed to [setImmediate]. *)
Inductive Immediate :=
| ImmPush (chunk : Buffer)      (* [() => this.push(chunk)] *)
| ImmCallback.                  (* [callback] *)

Record Runtime := mkRuntime {
  this : MessageSplitter;
  emitted : list Event;
  immediates : list Immediate;  (* first in, first out *)
  errored : bool
}.

(** A JS computation: it returns or throws, and leaves a runtime behind. *)
Inductive Completion (A : Type) :=
| Normal (a : A)
| Throw.
Arguments Normal {A} a.
Arguments Throw {A}.

Definition Js (A : Type) : Type := Runtime -> Completion A * Runtime.

Module JsM.

Definition ret {A} (a : A) : Js A := fun rt => (Normal a, rt).

Definition bind {A B} (m : Js A) (k : A -> Js B) : Js B :=
  fun rt =>
    match m rt with
    | (Normal a, rt') => k a rt'
    | (Throw, rt') => (Throw, rt')
    end.

Definition throw {A} : Js A := fun rt => (Throw, rt).

(** [try { m } catch (E) { ... }]: the completion of [m] as a value. *)
Definition try {A} (m : Js A) : Js (Completion A) :=
  fun rt => let '(c, rt') := m rt in (Normal c, rt').

Definition getThis : Js MessageSplitter := fun rt => (Normal (this rt), rt).

Definition modifyThis (f : MessageSplitter -> MessageSplitter) : Js unit :=
  fun rt => (Normal tt, mkRuntime (f (this rt)) (emitted rt) (immediates rt) (errored rt)).

Definition observe (e : Event) : Js unit :=
  fun rt => (Normal tt, mkRuntime (this rt) (emitted rt ++ [e]) (immediates rt) (errored rt)).

(** A value that must not be [null]: using [null] is a TypeError. *)
Definition notNull {A} (x : option A) : Js A :=
  match x with
  | Some a => ret a
  | None => throw
  end.

End JsM.

Declare Scope js_scope.
Delimit Scope js_scope with js.
Notation "x <- m ;; k" := (JsM.bind m (fun x => k))
  (at level 100, m at next level, right associativity) : js_scope.
Notation "m ;;; k" := (JsM.bind m (fun _ => k))
  (at level 100, right associativity) : js_scope.
Local Open Scope js_scope.

(** [this.emit('headers', h)] *)
Definition emit_headers (h : list Line) : Js unit := JsM.observe (EvHeaders h).

(** [this.push(chunk)] *)
Definition push (chunk : Buffer) : Js unit := JsM.observe (EvData chunk).

(** [setImmediate(f)] *)
Definition setImmediate (f : Immediate) : Js unit :=
  fun rt => (Normal tt, mkRuntime (this rt) (emitted rt) (immediates rt ++ [f]) (errored rt)).

(** [callback(err)]: without an error the write is complete and the stream
    takes the next chunk; with one the stream reports it and stops. *)
Definition callback (err : bool) : Js unit :=
  if err then
    fun rt => (Normal tt, mkRuntime (this rt) (emitted rt ++ [EvError]) (immediates rt) true)
  else JsM.ret tt.

(** ** The methods of the class *)

(** [buf[i] = v]: an element outside the buffer is not written, and
    [undefined] is stored as zero. *)
Definition Buffer_set (b : Buffer) (i : nat) (v : option byte) : Buffer :=
  <[i := default x00 v]> b.

(** First loop of [updateLastBytes] (lines 31-33): shift existing bytes. *)
Fixpoint shift_bytes (fuel i nblen : nat) (lb : Buffer) : Buffer :=
  match fuel with
  | O => lb
  | S fuel' => shift_bytes fuel' (S i) nblen (Buffer_set lb i (lb !! (i + nblen)%nat))
  end.

(** Second loop of [updateLastBytes] (lines 36-38): add new bytes. *)
Fixpoint add_bytes (fuel i lblen : nat) (data lb : Buffer) : Buffer :=
  match fuel with
  | O => lb
  | S fuel' =>
      add_bytes fuel' (S i) lblen data
                (Buffer_set lb (lblen - i)%nat (data !! (length data - i)%nat))
  end.

(** [updateLastBytes(data)] *)
Definition updateLastBytes (data : Buffer) : Js unit :=
  JsM.modifyThis (fun t =>
    let lblen := length (lastBytes t) in
    let nblen := Nat.min (length data) lblen in
    let shifted := shift_bytes (lblen - nblen)%nat 0 nblen (lastBytes t) in
    set_lastBytes (add_bytes nblen 1 lblen data shifted) t).

(** Byte [i] of the window followed by the chunk (lines 58-62, 64, 65). *)
Definition virtual_byte (lb data : Buffer) (i : nat) : option byte :=
  if (i <? length lb)%nat then lb !! i else data !! (i - length lb)%nat.

(** The search loop of [checkHeaders] (lines 56-78), entered at index [i]
    with [fuel = len - i].  It returns [headerPos] and the object as the
    loop leaves it. *)
Fixpoint scan (fuel i : nat) (data : Buffer) (headerPos : Z) (t : MessageSplitter)
  : Z * MessageSplitter :=
  match fuel with
  | O => (headerPos, t)
  | S fuel' =>
      let lblen := length (lastBytes t) in
      let chr := virtual_byte (lastBytes t) data i in
      if (Buf.strictEq chr x0a && negb (Nat.eqb i 0))%bool then
        let pr1 := virtual_byte (lastBytes t) data (i - 1)%nat in
        let pr2 := if (1 <? i)%nat then virtual_byte (lastBytes t) data (i - 2)%nat
                   else None in
        if Buf.strictEq pr1 x0a then
          let headerPos := Z.of_nat i - Z.of_nat lblen + 1 in
          (headerPos, set_headerBytes (headerBytes t + headerPos) (set_headersParsed true t))
        else if (Buf.strictEq pr1 x0d && Buf.strictEq pr2 x0a)%bool then
          let headerPos := Z.of_nat i - Z.of_nat lblen + 1 in
          (headerPos, set_headerBytes (headerBytes t + headerPos) (set_headersParsed true t))
        else scan fuel' (S i) data headerPos t
      else scan fuel' (S i) data headerPos t
  end.

(** [checkHeaders(data)] *)
Definition checkHeaders (data : Buffer) : Js bool :=
  t <- JsM.getThis ;;
  if headersParsed t then JsM.ret true
  else
    JsM.modifyThis (set_curLinePos (Some 0)) ;;;
    t <- JsM.getThis ;;
    let '(headerPos, t) := scan (length (lastBytes t) + length data) 0 data 0 t in
    JsM.modifyThis (fun _ => t) ;;;
    if headersParsed t then
      chunks <- JsM.notNull (headerChunks t) ;;
      let chunks := chunks ++ [Buf.slice data 0 headerPos] in
      JsM.modifyThis (set_headerChunks (Some chunks)) ;;;
      raw <- JsM.notNull (Buf.concat chunks (headerBytes t)) ;;
      JsM.modifyThis (set_rawHeaders (Some raw)) ;;;
      JsM.modifyThis (set_headerChunks None) ;;;
      h <- JsM.notNull (parseHeaders raw) ;;
      JsM.modifyThis (set_headers (Some h)) ;;;
      emit_headers h ;;;
      (if Z.of_nat (length data) - 1 >? headerPos then
         let chunk := Buf.slice_from data headerPos in
         JsM.modifyThis (fun t => set_bodySize (bodySize t + Z.of_nat (length chunk)) t) ;;;
         setImmediate (ImmPush chunk)
       else JsM.ret tt) ;;;
      JsM.ret false
    else
      JsM.modifyThis (fun t => set_headerBytes (headerBytes t + Z.of_nat (length data)) t) ;;;
      chunks <- JsM.notNull (headerChunks t) ;;
      JsM.modifyThis (set_headerChunks (Some (chunks ++ [data]))) ;;;
      updateLastBytes data ;;;
      JsM.ret false.

(** [_transform(chunk, encoding, callback)].  The stream is in byte mode,
    so [chunk] is a Buffer and the string conversion of line 110 is not
    taken. *)
Definition _transform (chunk : Buffer) : Js unit :=
  if Nat.eqb (length chunk) 0 then callback false
  else
    r <- JsM.try (checkHeaders chunk) ;;
    match r with
    | Throw => callback true
    | Normal headersFound =>
        (if headersFound then
           JsM.modifyThis (fun t => set_bodySize (bodySize t + Z.of_nat (length chunk)) t) ;;;
           push chunk
         else JsM.ret tt) ;;;
        setImmediate ImmCallback
    end.

(** [_flush(callback)] *)
Definition _flush : Js unit :=
  t <- JsM.getThis ;;
  match headerChunks t with
  | Some chunks =>
      JsM.modifyThis (set_headersParsed true) ;;;
      let chunks := chunks ++ [Buf.from (Text.crlf ++ Text.crlf)] in
      JsM.modifyThis (set_headerChunks (Some chunks)) ;;;
      JsM.modifyThis (fun t => set_headerBytes (headerBytes t + 4) t) ;;;
      t <- JsM.getThis ;;
      raw <- JsM.notNull (Buf.concat chunks (headerBytes t)) ;;
      JsM.modifyThis (set_rawHeaders (Some raw)) ;;;
      h <- JsM.notNull (parseHeaders raw) ;;
      JsM.modifyThis (set_headers (Some h)) ;;;
      emit_headers h ;;;
      JsM.modifyThis (set_headerChunks None) ;;;
      push (Buf.from Text.crlf) ;;;
      callback false
  | None => callback false
  end.

(** ** The stream machinery around the class

    Node calls [_transform] for one written chunk at a time and takes the
    next one when [callback] has run; the functions given to [setImmediate]
    run in the order they were queued; [_flush] runs when the input has ended
    and every chunk is done.  A stream that reported an error takes nothing
    more. *)

Fixpoint run_immediates (q : list Immediate) : Js unit :=
  match q with
  | [] => JsM.ret tt
  | ImmPush chunk :: q' => push chunk ;;; run_immediates q'
  | ImmCallback :: q' => callback false ;;; run_immediates q'
  end.

Definition drain : Js unit :=
  fun rt =>
    run_immediates (immediates rt)
                   (mkRuntime (this rt) (emitted rt) [] (errored rt)).

(** [stream.write(chunk)] up to the moment the chunk is done. *)
Definition write (chunk : Buffer) : Js unit :=
  fun rt =>
    if errored rt then (Normal tt, rt)
    else (_transform chunk ;;; drain) rt.

Fixpoint feed (chunks : list Buffer) : Js unit :=
  match chunks with
  | [] => JsM.ret tt
  | c :: cs => write c ;;; feed cs
  end.

(** [stream.end()] *)
Definition end_ : Js unit :=
  fun rt => if errored rt then (Normal tt, rt) else _flush rt.

Definition start : Runtime := mkRuntime constructor [] [] false.

(** A whole stream: the chunks are written in order, then the input ends. *)
Definition run (chunks : list Buffer) : Completion unit * Runtime :=
  (feed chunks ;;; end_) start.

(** The header notifications that were emitted. *)
Definition headers_of (es : list Event) : list (list Line) :=
  omap (fun e => match e with EvHeaders h => Some h | _ => None end) es.

(** The body bytes that went downstream. *)
Definition body_of (es : list Event) : Buffer :=
  List.concat (omap (fun e => match e with EvData c => Some c | _ => None end) es).

(** ** Reference definitions

    These follow the wording of the specification and are what the code is
    compared with. *)

(** Section 4.3, step 3, read from the top: a line that starts with a space
    or a tab is appended to the logical line before it, after one newline;
    any other line starts a new logical line.  [cur] is the logical line
    being assembled. *)
Fixpoint unfold_from (cur : string) (rest : list string) : list string :=
  match rest with
  | [] => [cur]
  | l :: rest' =>
      if is_folded l then unfold_from (cur ++ Text.newline ++ l)%string rest'
      else cur :: unfold_from l rest'
  end.

Definition unfold_lines (lines : list string) : list string :=
  match lines with
  | [] => []
  | l :: rest => unfold_from l rest
  end.

(** The lines of a raw header buffer (section 4.3, steps 1 and 2). *)
Definition lines_of (headers : Buffer) : list string :=
  Text.split_lines (Text.replace_trailing_breaks (Buf.toString headers)).

(** Section 4.1: a blank-line terminator completes at byte [i] of [v] when
    bytes [i-1, i] are LF LF, or bytes [i-2, i-1, i] are LF CR LF. *)
Definition boundary_at (v : Buffer) (i : nat) : bool :=
  ((Nat.leb 1 i && Buf.strictEq (v !! (i - 1)%nat) x0a && Buf.strictEq (v !! i) x0a)
   || (Nat.leb 2 i && Buf.strictEq (v !! (i - 2)%nat) x0a
       && Buf.strictEq (v !! (i - 1)%nat) x0d && Buf.strictEq (v !! i) x0a))%bool.

(** The leftmost index in [i, i + fuel) at which a terminator completes. *)
Fixpoint first_boundary (v : Buffer) (fuel i : nat) : option nat :=
  match fuel with
  | O => None
  | S fuel' => if boundary_at v i then Some i else first_boundary v fuel' (S i)
  end.

(** The last [n] elements of a list. *)
Definition last_n {A} (n : nat) (l : list A) : list A := drop (length l - n)%nat l.

(** ** Phases of a stream

    The two conditions a stream is in between two chunks; [input] is what
    has been written so far. *)

(** Still accumulating: nothing was observed, every byte written is in the
    header chunks, the window holds the last four bytes (over four zero bytes
    at the start), and no terminator has been seen. *)
Record Accumulating (input : Buffer) (rt : Runtime) : Prop := {
  acc_errored : errored rt = false;
  acc_immediates : immediates rt = [];
  acc_emitted : emitted rt = [];
  acc_parsed : headersParsed (this rt) = false;
  acc_chunks : exists hc, headerChunks (this rt) = Some hc /\ List.concat hc = input;
  acc_bytes : headerBytes (this rt) = Z.of_nat (length input);
  acc_last : lastBytes (this rt) = last_n 4 (Buf.alloc 4 ++ input);
  acc_clear : forall i, boundary_at (Buf.alloc 4 ++ input) i = false
}.

(** Forwarding: the headers parsed from [raw] were announced once, first of
    all, and [body] has gone downstream since. *)
Record Forwarding (raw body : Buffer) (rt : Runtime) : Prop := {
  fwd_errored : errored rt = false;
  fwd_immediates : immediates rt = [];
  fwd_parsed : headersParsed (this rt) = true;
  fwd_chunks : headerChunks (this rt) = None;
  fwd_raw : rawHeaders (this rt) = Some raw;
  fwd_bytes : headerBytes (this rt) = Z.of_nat (length raw);
  fwd_emitted :
    exists h bs, parseHeaders raw = Some h
                 /\ emitted rt = EvHeaders h :: (EvData <$> bs)
                 /\ List.concat bs = body
}.

(** Where the first terminator of [whole] puts the headers, and what of the
    rest went downstream: all of it, or all but its first byte. *)
Definition Split (whole raw body : Buffer) : Prop :=
  exists j,
    first_boundary whole (length whole) 0 = Some j
    /\ raw = take (S j) whole
    /\ (body = drop (S j) whole \/ body = drop (S (S j)) whole).

(** ** Sample messages *)

Module Sample.

Local Open Scope string_scope.

Definition cr : string := String Text.CR EmptyString.
Definition lf : string := Text.newline.
Definition crlf : string := Text.crlf.

(** [Subject: Hello\r\n World\r\n\r\nBODY] *)
Definition folded : Buffer :=
  Buf.from ("Subject: Hello" ++ crlf ++ " World" ++ crlf ++ crlf ++ "BODY").

(** [X-Broken\r\n\r\nBODY] *)
Definition no_colon : Buffer := Buf.from ("X-Broken" ++ crlf ++ crlf ++ "BODY").

(** [X-Test: 1] *)
Definition no_boundary : Buffer := Buf.from "X-Test: 1".

(** [Header: 1\r\n\r] and [\nBODY] *)
Definition cross1 : Buffer := Buf.from ("Header: 1" ++ crlf ++ cr).
Definition cross2 : Buffer := Buf.from (lf ++ "BODY").

(** [A: 1\n\r\nB: 2\r\n\r\nBODY]: a bare LF followed by CR LF. *)
Definition mixed : Buffer :=
  Buf.from ("A: 1" ++ lf ++ crlf ++ "B: 2" ++ crlf ++ crlf ++ "BODY").

(** [A: 1\n\nB]: one byte behind the blank line. *)
Definition one_byte_body : Buffer := Buf.from ("A: 1" ++ lf ++ lf ++ "B").

(** [ X: 1\r\n\r\n]: the first line starts with a space. *)
Definition leading_space : Buffer := Buf.from (" X: 1" ++ crlf ++ crlf).

(** The line [Subject: Hello], a newline, and the line [ World]. *)
Definition folded_line : string := "Subject: Hello" ++ lf ++ " World".

(** The same without the space that starts the second line. *)
Definition folded_line_stripped : string := "Subject: Hello" ++ lf ++ "World".

(** Header lines: [A: 1], its continuation [ b], and [C: 2]. *)
Definition lines_front : list string := ["A: 1"; " b"].
Definition line_last : string := "C: 2".

End Sample.

(** The join of a line with the continuation lines that follow it. *)
Definition join_folded (l : string) (conts : list string) : string :=
  fold_left (fun acc c => (acc ++ Text.newline ++ c)%string) conts l.

(** ** Header blocks written out *)

(** A line proper: no CR and no LF in it. *)
Definition is_plain (l : string) : bool :=
  forallb (fun c => negb (Text.is_break c)) (list_ascii_of_string l).

(** The lines [L], each followed by the line break [sep], and then [tail]. *)
Definition lines_then (sep : string) (L : list string) (tail : string) : string :=
  fold_right (fun l acc => (l ++ sep ++ acc)%string) tail L.

(** A header block as a sender writes it: every line ended by [sep], and an
    empty line after the last. *)
Definition header_block (sep : string) (L : list string) : string :=
  lines_then sep L sep.

(** ** The POP3 server's start (the file that requires the server classes)

    [module.exports = done => ...]: when POP3 is enabled, an ['error']
    listener and the callback of [listen] share the flag [started]; what the
    server does afterwards is a sequence of these two events. *)

Module Pop3.

Inductive ServerEvent :=
| OnError (err : string)        (* the ['error'] listener runs with [err] *)
| OnListening.                  (* the callback given to [listen] runs *)

Inductive Effect :=
| DoneError (err : string)      (* [done(err)] *)
| DoneServer                    (* [done(null, server)] *)
| DoneDisabled                  (* [done(null, false)] *)
| LogError (err : string)       (* [log.error('POP3', err)] *)
| Close.                        (* [server.close()] *)

(** [err => { if (!started) { started = true; return done(err); } log.error('POP3', err); }] *)
Definition on_error (started : bool) (err : string) : bool * list Effect :=
  if negb started then (true, [DoneError err]) else (started, [LogError err]).

(** [() => { if (started) { return server.close(); } started = true; done(null, server); }] *)
Definition on_listening (started : bool) : bool * list Effect :=
  if started then (started, [Close]) else (true, [DoneServer]).

Fixpoint handle (started : bool) (events : list ServerEvent) : list Effect :=
  match events with
  | [] => []
  | OnError err :: rest =>
      let '(started', out) := on_error started err in out ++ handle started' rest
  | OnListening :: rest =>
      let '(started', out) := on_listening started in out ++ handle started' rest
  end.

(** [module.exports]: with POP3 disabled [done(null, false)] is all that
    happens; otherwise [started] is false and the two handlers are set up. *)
Definition exports (enabled : bool) (events : list ServerEvent) : list Effect :=
  if negb enabled then [DoneDisabled] else handle false events.

(** A call of [done]. *)
Definition is_done (e : Effect) : bool :=
  match e with
  | DoneError _ | DoneServer | DoneDisabled => true
  | LogError _ | Close => false
  end.

End Pop3.

(** ** Seven-bit text

    On bytes below 0x80 the text functions of this file are those of the
    source: [toString('utf-8')] gives each such byte the character of the
    same code, [toLowerCase] changes [A] to [Z] only, and [trim] strips TAB,
    LF, VT, FF, CR and space.  Above 0x7F the source decodes UTF-8 and works
    on Unicode characters, which this file does not model. *)

Definition low_byte (b : byte) : bool := (Byte.to_N b <? 128)%N.

(** A buffer of bytes below 0x80. *)
Definition is_7bit (raw : Buffer) : bool := forallb low_byte raw.

Definition low_char (c : ascii) : bool := (nat_of_ascii c <? 128)%nat.

(** A text of characters below 0x80. *)
Fixpoint is_7bit_text (s : string) : bool :=
  match s with
  | EmptyString => true
  | String c rest => (low_char c && is_7bit_text rest)%bool
  end.

(** * Properties *)

(** Reduce the projections of a runtime or an object that is written out. *)
Ltac fields :=
  cbn [this emitted immediates errored lastBytes headersParsed headerBytes
       headerChunks rawHeaders bodySize curLinePos headers].

(** ** The header parser *)

Section ParseHeaders.

Lemma append_assoc (a b c : string) : ((a ++ b) ++ c = a ++ (b ++ c))%string.
Proof. induction a as [|x a IH]; simpl; [reflexivity | now rewrite IH]. Qed.

Lemma split_lines_cons (s : string) : exists l ls, Text.split_lines s = l :: ls.
Proof.
  destruct s as [|c rest]; simpl; [eauto |].
  destruct (Ascii.eqb c Text.LF); [eauto |].
  destruct rest as [|d rest']; [eauto |].
  destruct (Ascii.eqb c Text.CR && Ascii.eqb d Text.LF)%bool; [eauto |].
  destruct (Text.split_lines (String d rest')); eauto.
Qed.

Lemma lines_of_cons (raw : Buffer) : exists l ls, lines_of raw = l :: ls.
Proof. apply split_lines_cons. Qed.

(** Appending to a line does not change whether it is a continuation. *)
Lemma is_folded_append (a c : string) :
  is_folded (a ++ Text.newline ++ c)%string = is_folded a.
Proof. destruct a; reflexivity. Qed.

Lemma unfold_from_merge (P : list string) (cur a c : string) (Q : list string) :
  is_folded c = true ->
  unfold_from cur (P ++ a :: c :: Q) = unfold_from cur (P ++ (a ++ Text.newline ++ c)%string :: Q).
Proof.
  intros Hc. revert cur. induction P as [|p P IH]; intros cur; cbn [unfold_from app].
  - rewrite is_folded_append, Hc.
    destruct (is_folded a); [| reflexivity].
    now rewrite !append_assoc.
  - destruct (is_folded p); now rewrite IH.
Qed.

Lemma unfold_lines_merge (P : list string) (a c : string) (Q : list string) :
  is_folded c = true ->
  unfold_lines (P ++ a :: c :: Q) = unfold_lines (P ++ (a ++ Text.newline ++ c)%string :: Q).
Proof.
  intros Hc. destruct P as [|p P]; cbn [unfold_lines unfold_from app].
  - now rewrite Hc.
  - now apply unfold_from_merge.
Qed.

Lemma unfold_from_snoc (P : list string) (cur l : string) :
  is_folded l = false ->
  unfold_from cur (P ++ [l]) = unfold_from cur P ++ [l].
Proof.
  intros Hl. revert cur. induction P as [|p P IH]; intros cur; simpl.
  - now rewrite Hl.
  - destruct (is_folded p); simpl; now rewrite IH.
Qed.

Lemma unfold_lines_snoc (P : list string) (l : string) :
  P = [] \/ is_folded l = false ->
  unfold_lines (P ++ [l]) = unfold_lines P ++ [l].
Proof.
  destruct P as [|p P]; simpl; [reflexivity |].
  intros [? | Hl]; [discriminate |]. now apply unfold_from_snoc.
Qed.

Lemma unfold_from_plain (cur : string) (L : list string) :
  Forall (fun l => is_folded l = false) L -> unfold_from cur L = cur :: L.
Proof.
  intros H. revert cur. induction H as [|l L Hl _ IH]; intros cur; simpl.
  - reflexivity.
  - now rewrite Hl, IH.
Qed.

Lemma snoc_case {A} (l : list A) : l = [] \/ exists l' x, l = l' ++ [x].
Proof. induction l using rev_ind; [now left | right; eauto]. Qed.

(** The loop, started on [n] strings followed by finished entries, leaves
    the entries of the unfolded strings in front of them. *)
Lemma parseHeaders_loop_unfold (n : nat) :
  forall (P : list string) (E : list HeaderEntry),
    length P = n ->
    parseHeaders_loop n ((Str <$> P) ++ (Obj <$> E))
    = Some ((Obj <$> (entry_of <$> unfold_lines P)) ++ (Obj <$> E)).
Proof.
  induction n as [|i IH]; intros P E Hlen.
  - destruct P; [reflexivity | discriminate].
  - destruct (snoc_case P) as [-> | (P' & li & ->)]; [discriminate |].
    rewrite length_app in Hlen. simpl in Hlen.
    assert (Hi : length P' = i) by lia.
    cbn [parseHeaders_loop].
    rewrite fmap_app, <- app_assoc. simpl.
    assert (HP' : length (Str <$> P') = i) by now rewrite length_fmap.
    rewrite <- HP' at 1. rewrite list_lookup_middle by reflexivity.
    destruct (negb (i =? 0)%nat && is_folded li)%bool eqn:Hc.
    + apply andb_true_iff in Hc as [Hi0 Hf].
      apply negb_true_iff, Nat.eqb_neq in Hi0.
      destruct (snoc_case P') as [-> | (P'' & prev & ->)]; [simpl in Hi; lia |].
      rewrite length_app in Hi. simpl in Hi.
      rewrite fmap_app, <- app_assoc. simpl.
      assert (HP'' : length (Str <$> P'') = (i - 1)%nat) by (rewrite length_fmap; lia).
      set (merged := (prev ++ Text.newline ++ li)%string).
      assert (Hlook : ((Str <$> P'') ++ Str prev :: Str li :: (Obj <$> E)) !! (i - 1)%nat
                      = Some (Str prev))
        by (rewrite <- HP''; now apply list_lookup_middle).
      assert (Hins : <[(i - 1)%nat := Str merged]>
                       ((Str <$> P'') ++ Str prev :: Str li :: (Obj <$> E))
                     = ((Str <$> P'') ++ [Str merged]) ++ Str li :: (Obj <$> E)).
      { rewrite <- HP''.
        replace (length (Str <$> P'')) with (length (Str <$> P'') + 0)%nat by lia.
        rewrite insert_app_r, <- app_assoc. reflexivity. }
      cbv zeta. rewrite Hlook. cbn [from_option Line_toString].
      change (prev ++ String Text.LF li)%string with merged.
      rewrite Hins.
      replace i with (length ((Str <$> P'') ++ [Str merged])) at 2
        by (rewrite length_app, HP''; simpl; lia).
      rewrite delete_middle.
      replace ((Str <$> P'') ++ [Str merged])
        with (Str <$> (P'' ++ [merged])) by now rewrite fmap_app.
      unfold merged.
      rewrite IH by (rewrite length_app; simpl; lia).
      replace ((P'' ++ [prev]) ++ [li]) with (P'' ++ prev :: li :: []) by now rewrite <- app_assoc.
      now rewrite (unfold_lines_merge P'' prev li [] Hf).
    + replace i with (length (Str <$> P') + 0)%nat at 2 by lia.
      rewrite insert_app_r. simpl.
      change (Obj (entry_of li) :: (Obj <$> E)) with (Obj <$> (entry_of li :: E)).
      rewrite IH by assumption.
      rewrite unfold_lines_snoc.
      * rewrite !fmap_app, <- app_assoc. reflexivity.
      * apply andb_false_iff in Hc as [Hc | Hc]; [left | now right].
        apply negb_false_iff, Nat.eqb_eq in Hc. subst i.
        now destruct P'.
Qed.

(** [parseHeaders] never throws, and returns the entries of the unfolded
    lines, in order. *)
Lemma parseHeaders_unfold (raw : Buffer) :
  parseHeaders raw = Some (Obj <$> (entry_of <$> unfold_lines (lines_of raw))).
Proof.
  unfold parseHeaders. fold (lines_of raw).
  pose proof (parseHeaders_loop_unfold (length (lines_of raw)) (lines_of raw) [] eq_refl) as H.
  simpl in H. now rewrite !app_nil_r in H.
Qed.

Lemma unfold_from_cons (cur : string) (L : list string) :
  exists l ls, unfold_from cur L = l :: ls.
Proof.
  revert cur. induction L as [|x L IH]; intros cur; simpl; [eauto |].
  destruct (is_folded x); eauto.
Qed.

Lemma parseHeaders_cons (raw : Buffer) :
  exists e es, parseHeaders raw = Some (Obj e :: (Obj <$> es)).
Proof.
  rewrite parseHeaders_unfold.
  destruct (lines_of_cons raw) as (l & ls & ->). simpl.
  destruct (unfold_from_cons l ls) as (x & xs & ->). simpl. eauto.
Qed.

End ParseHeaders.

(** ** The tail window *)

Section TailWindow.

Lemma shift_bytes_length (fuel i nblen : nat) (lb : Buffer) :
  length (shift_bytes fuel i nblen lb) = length lb.
Proof.
  revert i lb. induction fuel as [|fuel IH]; intros i lb; simpl; [reflexivity |].
  rewrite IH. unfold Buffer_set. apply length_insert.
Qed.

Lemma add_bytes_length (fuel i lblen : nat) (data lb : Buffer) :
  length (add_bytes fuel i lblen data lb) = length lb.
Proof.
  revert i lb. induction fuel as [|fuel IH]; intros i lb; simpl; [reflexivity |].
  rewrite IH. unfold Buffer_set. apply length_insert.
Qed.

(** The first loop moves the bytes [nblen] places down; each read is of a
    byte that no earlier round has written. *)
Lemma shift_bytes_lookup (fuel : nat) :
  forall (i nblen : nat) (lb : Buffer) (k : nat),
    (i + fuel + nblen <= length lb)%nat ->
    shift_bytes fuel i nblen lb !! k
    = if decide (i <= k < i + fuel)%nat then lb !! (k + nblen)%nat else lb !! k.
Proof.
  induction fuel as [|fuel IH]; intros i nblen lb k Hlen; simpl.
  - case_decide; [lia | reflexivity].
  - rewrite IH by (unfold Buffer_set; rewrite length_insert; lia).
    unfold Buffer_set.
    destruct (lookup_lt_is_Some_2 lb (i + nblen)%nat ltac:(lia)) as [b Hb].
    rewrite Hb. simpl.
    repeat case_decide; try lia.
    + destruct (decide (i = (k + nblen)%nat)) as [-> | Hne].
      * assert (nblen = 0%nat) by lia. subst nblen.
        rewrite Nat.add_0_r in *. lia.
      * now rewrite list_lookup_insert_ne.
    + assert (k = i) by lia. subst k.
      rewrite list_lookup_insert_eq by lia. now rewrite Hb.
    + rewrite list_lookup_insert_ne by lia. reflexivity.
Qed.

(** The second loop copies the end of the chunk to the end of the window. *)
Lemma add_bytes_lookup (fuel : nat) :
  forall (i lblen : nat) (data lb : Buffer) (k : nat),
    length lb = lblen -> (1 <= i)%nat ->
    (i + fuel <= S lblen)%nat -> (i + fuel <= S (length data))%nat ->
    add_bytes fuel i lblen data lb !! k
    = if decide (S lblen <= k + i + fuel /\ k + i <= lblen)%nat
      then data !! (length data - (lblen - k))%nat else lb !! k.
Proof.
  induction fuel as [|fuel IH]; intros i lblen data lb k Hlb Hi Hl Hd; simpl.
  - case_decide; [lia | reflexivity].
  - rewrite IH by (unfold Buffer_set; rewrite ?length_insert; lia).
    unfold Buffer_set.
    destruct (lookup_lt_is_Some_2 data (length data - i)%nat ltac:(lia)) as [b Hb].
    rewrite Hb. simpl.
    repeat case_decide; try lia; [reflexivity | |].
    + assert (k = (lblen - i)%nat) by lia. subst k.
      rewrite list_lookup_insert_eq by lia.
      rewrite <- Hb. f_equal. lia.
    + rewrite list_lookup_insert_ne by lia. reflexivity.
Qed.

(** [updateLastBytes] leaves the last bytes of window and chunk together. *)
Lemma updateLastBytes_last_n (lb data : Buffer) :
  let lblen := length lb in
  let nblen := Nat.min (length data) lblen in
  add_bytes nblen 1 lblen data (shift_bytes (lblen - nblen)%nat 0 nblen lb)
  = last_n lblen (lb ++ data).
Proof.
  intros lblen nblen. apply list_eq. intros k.
  unfold last_n. rewrite lookup_drop, length_app. fold lblen.
  destruct (decide (k < lblen)%nat) as [Hk | Hk].
  - rewrite add_bytes_lookup by (rewrite ?shift_bytes_length; lia).
    rewrite shift_bytes_lookup by lia.
    rewrite lookup_app.
    repeat case_decide; try lia.
    + destruct (lb !! (lblen + length data - lblen + k)%nat) eqn:E.
      * apply lookup_lt_Some in E. fold lblen in E. lia.
      * f_equal. lia.
    + destruct (lb !! (lblen + length data - lblen + k)%nat) eqn:E.
      * rewrite <- E. f_equal. lia.
      * apply lookup_ge_None in E. fold lblen in E. lia.
  - rewrite !lookup_ge_None_2; [reflexivity | |].
    + rewrite length_app. fold lblen. lia.
    + rewrite add_bytes_length, shift_bytes_length. fold lblen. lia.
Qed.

End TailWindow.

(** ** The boundary detector *)

Section Detector.

Lemma virtual_byte_app (lb data : Buffer) (i : nat) :
  virtual_byte lb data i = (lb ++ data) !! i.
Proof.
  unfold virtual_byte. rewrite lookup_app.
  destruct (Nat.ltb_spec i (length lb)) as [H | H].
  - destruct (lookup_lt_is_Some_2 lb i H) as [b ->]. reflexivity.
  - now rewrite (lookup_ge_None_2 lb i H).
Qed.

(** The test of lines 63-76 is the rule of section 4.1. *)
Lemma scan_test (v : Buffer) (i : nat) :
  let chr := v !! i in
  let pr1 := v !! (i - 1)%nat in
  let pr2 := if (1 <? i)%nat then v !! (i - 2)%nat else None in
  (Buf.strictEq chr x0a && negb (Nat.eqb i 0)
   && (Buf.strictEq pr1 x0a || (Buf.strictEq pr1 x0d && Buf.strictEq pr2 x0a)))%bool
  = boundary_at v i.
Proof.
  unfold boundary_at.
  destruct i as [|[|i]]; simpl;
    repeat match goal with |- context [Buf.strictEq ?x ?b] => destruct (Buf.strictEq x b) end;
    reflexivity.
Qed.

(** The loop stops at the leftmost terminator and nowhere else. *)
Lemma scan_first_boundary (fuel : nat) :
  forall (i : nat) (data : Buffer) (headerPos : Z) (t : MessageSplitter),
    scan fuel i data headerPos t
    = match first_boundary (lastBytes t ++ data) fuel i with
      | Some j =>
          let p := Z.of_nat j - Z.of_nat (length (lastBytes t)) + 1 in
          (p, set_headerBytes (headerBytes t + p) (set_headersParsed true t))
      | None => (headerPos, t)
      end.
Proof.
  induction fuel as [|fuel IH]; intros i data headerPos t; [reflexivity |].
  cbn [scan first_boundary].
  rewrite <- (scan_test (lastBytes t ++ data) i). cbv zeta.
  rewrite !virtual_byte_app.
  destruct (Buf.strictEq ((lastBytes t ++ data) !! i) x0a); cbn [andb]; [| apply IH].
  destruct (negb (i =? 0)%nat); cbn [andb]; [| apply IH].
  destruct (Buf.strictEq ((lastBytes t ++ data) !! (i - 1)%nat) x0a); cbn [orb]; [reflexivity |].
  destruct (Buf.strictEq ((lastBytes t ++ data) !! (i - 1)%nat) x0d); cbn [andb]; [| apply IH].
  destruct (Buf.strictEq _ x0a); [reflexivity | apply IH].
Qed.

Lemma first_boundary_Some (v : Buffer) (fuel : nat) :
  forall i j,
    first_boundary v fuel i = Some j ->
    (i <= j < i + fuel)%nat /\ boundary_at v j = true
    /\ forall k, (i <= k < j)%nat -> boundary_at v k = false.
Proof.
  induction fuel as [|fuel IH]; intros i j H; [discriminate |].
  cbn [first_boundary] in H. destruct (boundary_at v i) eqn:E.
  - injection H as <-. repeat split; [lia | lia | assumption | intros; lia].
  - apply IH in H as (Hr & Hb & Hl). repeat split; [lia | lia | assumption |].
    intros k Hk. destruct (decide (k = i)) as [-> | ?]; [assumption | apply Hl; lia].
Qed.

Lemma first_boundary_None (v : Buffer) (fuel : nat) :
  forall i,
    first_boundary v fuel i = None <->
    forall k, (i <= k < i + fuel)%nat -> boundary_at v k = false.
Proof.
  induction fuel as [|fuel IH]; intros i; cbn [first_boundary].
  - split; [intros; lia | reflexivity].
  - destruct (boundary_at v i) eqn:E.
    + split; [discriminate |]. intros H. rewrite H in E by lia. discriminate.
    + rewrite IH. split; intros H k Hk.
      * destruct (decide (k = i)) as [-> | ?]; [assumption | apply H; lia].
      * apply H. lia.
Qed.

(** The leftmost terminator is what the search returns. *)
Lemma first_boundary_leftmost (v : Buffer) (fuel i j : nat) :
  (i <= j < i + fuel)%nat -> boundary_at v j = true ->
  (forall k, (i <= k < j)%nat -> boundary_at v k = false) ->
  first_boundary v fuel i = Some j.
Proof.
  intros Hr Hb Hl.
  destruct (first_boundary v fuel i) as [j'|] eqn:E.
  - apply first_boundary_Some in E as (Hr' & Hb' & Hl').
    destruct (lt_eq_lt_dec j j') as [[H | ->] | H]; [| reflexivity |].
    + rewrite Hl' in Hb by lia. discriminate.
    + rewrite Hl in Hb' by lia. discriminate.
  - rewrite first_boundary_None in E. rewrite E in Hb by lia. discriminate.
Qed.

(** A terminator completes inside the buffer. *)
Lemma boundary_at_lt (v : Buffer) (i : nat) :
  boundary_at v i = true -> (1 <= i < length v)%nat.
Proof.
  unfold boundary_at. intros H.
  assert (Hi : Buf.strictEq (v !! i) x0a = true /\ (1 <= i)%nat).
  { apply orb_true_iff in H as [H | H]; repeat (apply andb_true_iff in H as [H ?]);
      split; try assumption.
    - now apply Nat.leb_le in H.
    - apply Nat.leb_le in H. lia. }
  destruct Hi as [Hi ?]. split; [assumption |].
  destruct (v !! i) eqn:E; [| discriminate]. now apply lookup_lt_Some in E.
Qed.

(** Whether a terminator completes at [i] depends on the bytes up to [i]. *)
Lemma boundary_at_app_l (v w : Buffer) (i : nat) :
  (i < length v)%nat -> boundary_at (v ++ w) i = boundary_at v i.
Proof.
  intros H. unfold boundary_at.
  now rewrite !lookup_app_l by lia.
Qed.

Lemma boundary_at_drop (n : nat) (v : Buffer) (i : nat) :
  (2 <= i)%nat -> boundary_at (drop n v) i = boundary_at v (n + i).
Proof.
  intros H. unfold boundary_at. rewrite !lookup_drop.
  replace (n + (i - 1))%nat with (n + i - 1)%nat by lia.
  replace (n + (i - 2))%nat with (n + i - 2)%nat by lia.
  replace (1 <=? n + i)%nat with true by (symmetry; apply Nat.leb_le; lia).
  replace (2 <=? n + i)%nat with true by (symmetry; apply Nat.leb_le; lia).
  replace (1 <=? i)%nat with true by (symmetry; apply Nat.leb_le; lia).
  replace (2 <=? i)%nat with true by (symmetry; apply Nat.leb_le; lia).
  reflexivity.
Qed.

Lemma boundary_at_drop_true (n : nat) (v : Buffer) (i : nat) :
  boundary_at (drop n v) i = true -> boundary_at v (n + i) = true.
Proof.
  unfold boundary_at. rewrite !lookup_drop. intros H.
  apply orb_true_iff in H as [H | H]; repeat (apply andb_true_iff in H as [H ?]);
    apply Nat.leb_le in H; apply orb_true_iff; [left | right].
  - replace (n + (i - 1))%nat with (n + i - 1)%nat in * by lia.
    repeat (apply andb_true_iff; split); try assumption. apply Nat.leb_le. lia.
  - replace (n + (i - 1))%nat with (n + i - 1)%nat in * by lia.
    replace (n + (i - 2))%nat with (n + i - 2)%nat in * by lia.
    repeat (apply andb_true_iff; split); try assumption. apply Nat.leb_le. lia.
Qed.

(** The zero bytes the window starts with never take part in a terminator. *)
Lemma boundary_at_alloc (input : Buffer) (i : nat) :
  boundary_at (Buf.alloc 4 ++ input) (4 + i) = boundary_at input i.
Proof.
  unfold boundary_at, Buf.alloc.
  destruct i as [|[|i]]; simpl; rewrite ?Nat.sub_0_r;
    repeat match goal with |- context [Buf.strictEq ?x ?b] => destruct (Buf.strictEq x b) end;
    reflexivity.
Qed.

Lemma boundary_at_alloc_low (input : Buffer) (i : nat) :
  (i < 4)%nat -> boundary_at (Buf.alloc 4 ++ input) i = false.
Proof.
  intros H. unfold boundary_at, Buf.alloc.
  destruct i as [|[|[|[|i]]]]; simpl; try reflexivity; lia.
Qed.

End Detector.

(** ** One call of [checkHeaders] *)

Section CheckHeaders.

Variable rt : Runtime.
Variable data : Buffer.

Let t := this rt.
Let v := lastBytes t ++ data.
Let len := (length (lastBytes t) + length data)%nat.

Lemma checkHeaders_parsed :
  headersParsed t = true -> checkHeaders data rt = (Normal true, rt).
Proof.
  intros H. unfold checkHeaders, JsM.bind, JsM.getThis. fold t. now rewrite H.
Qed.

(** No terminator in window and chunk: the chunk joins the header chunks and
    the window moves on. *)
Lemma checkHeaders_accumulate (hc : list Buffer) :
  headersParsed t = false ->
  headerChunks t = Some hc ->
  first_boundary v len 0 = None ->
  checkHeaders data rt
  = (Normal false,
     mkRuntime
       (mkSplitter (last_n (length (lastBytes t)) v) false
                   (headerBytes t + Z.of_nat (length data)) (Some (hc ++ [data]))
                   (rawHeaders t) (bodySize t) (Some 0) (headers t))
       (emitted rt) (immediates rt) (errored rt)).
Proof.
  intros Hp Hc Hf.
  unfold checkHeaders, JsM.bind, JsM.getThis. fold t. rewrite Hp.
  cbn [JsM.modifyThis this].
  rewrite scan_first_boundary.
  cbn [lastBytes set_curLinePos]. fold t v len. rewrite Hf.
  cbn. fold t. rewrite Hp, Hc. cbn.
  unfold set_lastBytes, JsM.ret. cbn.
  rewrite updateLastBytes_last_n, Hp. reflexivity.
Qed.

(** A terminator completes at [j]: the chunk is cut behind it, the header
    chunks are joined and parsed, the headers are announced, and what is
    left of the chunk is queued for downstream when it is longer than one
    byte. *)
Lemma checkHeaders_found (hc : list Buffer) (j : nat) :
  headersParsed t = false ->
  headerChunks t = Some hc ->
  first_boundary v len 0 = Some j ->
  let headerPos := Z.of_nat j - Z.of_nat (length (lastBytes t)) + 1 in
  forall raw,
    Buf.concat (hc ++ [Buf.slice data 0 headerPos]) (headerBytes t + headerPos) = Some raw ->
    let h := Obj <$> (entry_of <$> unfold_lines (lines_of raw)) in
    let more := Z.of_nat (length data) - 1 >? headerPos in
    let chunk := Buf.slice_from data headerPos in
    checkHeaders data rt
    = (Normal false,
       mkRuntime
         (mkSplitter (lastBytes t) true (headerBytes t + headerPos) None (Some raw)
                     (if more then bodySize t + Z.of_nat (length chunk) else bodySize t)
                     (Some 0) (Some h))
         (emitted rt ++ [EvHeaders h])
         (if more then immediates rt ++ [ImmPush chunk] else immediates rt)
         (errored rt)).
Proof.
  intros Hp Hc Hf headerPos raw Hraw h more chunk.
  unfold checkHeaders, JsM.bind, JsM.getThis. fold t. rewrite Hp.
  cbn [JsM.modifyThis this].
  rewrite scan_first_boundary.
  cbn [lastBytes set_curLinePos]. fold t v len. rewrite Hf.
  cbn. fold t headerPos. rewrite Hc. cbn.
  rewrite Hraw. cbn.
  rewrite parseHeaders_unfold. cbn. fold h more.
  destruct more; reflexivity.
Qed.

End CheckHeaders.

(** ** One written chunk *)

Section Window.

Variable input : Buffer.

Let n := length input.
Let padded := Buf.alloc 4 ++ input.

Lemma window_length : length (last_n 4 padded) = 4%nat.
Proof.
  unfold last_n, padded. rewrite length_drop, length_app. simpl. lia.
Qed.

(** Window and chunk are the end of everything written so far. *)
Lemma window_app (c : Buffer) :
  last_n 4 padded ++ c = drop n (padded ++ c).
Proof.
  unfold last_n. 
  replace (length padded - 4)%nat with n
    by (unfold padded, n; rewrite length_app; simpl; lia).
  rewrite drop_app_le; [reflexivity |].
  unfold padded, n. rewrite length_app. simpl. lia.
Qed.

Lemma window_next (c : Buffer) :
  last_n 4 (last_n 4 padded ++ c) = last_n 4 (Buf.alloc 4 ++ input ++ c).
Proof.
  rewrite window_app. unfold last_n at 1.
  rewrite drop_drop, length_drop. unfold padded.
  rewrite <- app_assoc. unfold last_n. f_equal.
  rewrite !length_app. simpl. unfold n. lia.
Qed.

Hypothesis clear : forall i, boundary_at padded i = false.

Lemma window_boundary (c : Buffer) (i : nat) :
  boundary_at (last_n 4 padded ++ c) i = boundary_at (padded ++ c) (n + i).
Proof.
  rewrite window_app.
  destruct (le_lt_dec 2 i) as [H | H]; [now apply boundary_at_drop |].
  assert (Hf : boundary_at (padded ++ c) (n + i) = false).
  { rewrite boundary_at_app_l; [apply clear |].
    unfold padded. rewrite length_app. simpl. unfold n. lia. }
  rewrite Hf.
  destruct (boundary_at (drop n (padded ++ c)) i) eqn:E; [| reflexivity].
  apply boundary_at_drop_true in E. congruence.
Qed.

Lemma padded_boundary_low (c : Buffer) (k : nat) :
  (k < 4 + n)%nat -> boundary_at (padded ++ c) k = false.
Proof.
  intros H. rewrite boundary_at_app_l; [apply clear |].
  unfold padded. rewrite length_app. simpl. unfold n. lia.
Qed.

(** The search over window and chunk finds what a search over everything
    written so far finds. *)
Lemma window_scan (c : Buffer) :
  first_boundary (last_n 4 padded ++ c) (4 + length c) 0
  = (fun j => (j - n)%nat) <$> first_boundary (padded ++ c) (4 + n + length c) 0.
Proof.
  destruct (first_boundary (padded ++ c) (4 + n + length c) 0) as [j|] eqn:E;
    cbn [fmap option_fmap option_map].
  - apply first_boundary_Some in E as (Hr & Hb & Hl).
    assert (4 + n <= j)%nat.
    { destruct (le_lt_dec (4 + n) j); [assumption |].
      rewrite padded_boundary_low in Hb by assumption. discriminate. }
    apply first_boundary_leftmost.
    + lia.
    + rewrite window_boundary. now replace (n + (j - n))%nat with j by lia.
    + intros k Hk. rewrite window_boundary. apply Hl. lia.
  - rewrite first_boundary_None in E. apply first_boundary_None.
    intros k Hk. rewrite window_boundary. apply E. lia.
Qed.

Lemma window_scan_ge (c : Buffer) (j : nat) :
  first_boundary (padded ++ c) (4 + n + length c) 0 = Some j ->
  (4 + n <= j < 4 + n + length c)%nat.
Proof.
  intros E. apply first_boundary_Some in E as (Hr & Hb & Hl).
  split; [| lia].
  destruct (le_lt_dec (4 + n) j); [assumption |].
  rewrite padded_boundary_low in Hb by assumption. discriminate.
Qed.

End Window.

Section Write.

Lemma nonempty_length (c : Buffer) : c <> [] -> Nat.eqb (length c) 0 = false.
Proof. destruct c; [congruence | reflexivity]. Qed.

Lemma write_empty (rt : Runtime) :
  immediates rt = [] -> write [] rt = (Normal tt, rt).
Proof.
  intros H. unfold write. destruct (errored rt) eqn:E; [reflexivity |].
  destruct rt as [t em q err]. simpl in *. subst q. reflexivity.
Qed.

(** When [checkHeaders] returns false, nothing is pushed by [_transform]
    itself; the write is done when the queue has run. *)
Lemma write_unparsed (c : Buffer) (rt rt1 : Runtime) :
  errored rt = false -> c <> [] ->
  checkHeaders c rt = (Normal false, rt1) ->
  write c rt
  = drain (mkRuntime (this rt1) (emitted rt1) (immediates rt1 ++ [ImmCallback]) (errored rt1)).
Proof.
  intros He Hne H. unfold write. rewrite He.
  unfold _transform. rewrite (nonempty_length c Hne).
  unfold JsM.bind at 1 2. unfold JsM.try. rewrite H. reflexivity.
Qed.

(** A chunk that brings no terminator is kept whole for the headers. *)
Lemma write_accumulating_none (input c : Buffer) (rt : Runtime) :
  Accumulating input rt -> c <> [] ->
  first_boundary (Buf.alloc 4 ++ input ++ c) (4 + length input + length c) 0 = None ->
  exists rt', write c rt = (Normal tt, rt') /\ Accumulating (input ++ c) rt'.
Proof.
  intros [He Hi Hem Hp (hc & Hc & Hcat) Hb Hl Hclear] Hne Hnone.
  rewrite app_assoc in Hnone.
  assert (Hscan : first_boundary (lastBytes (this rt) ++ c)
                    (length (lastBytes (this rt)) + length c) 0 = None).
  { rewrite Hl, window_length, window_scan by assumption. now rewrite Hnone. }
  eexists. split.
  - unfold write. rewrite He.
    unfold _transform. rewrite (nonempty_length c Hne).
    unfold JsM.bind at 1 2. unfold JsM.try.
    rewrite (checkHeaders_accumulate rt c hc Hp Hc Hscan).
    cbn. rewrite Hi. cbn. reflexivity.
  - constructor; fields; try assumption; try reflexivity.
    + exists (hc ++ [c]). split; [reflexivity |].
      rewrite concat_app, Hcat. simpl. now rewrite app_nil_r.
    + rewrite Hb, length_app. lia.
    + rewrite Hl, window_length. apply window_next.
    + intros i. rewrite app_assoc.
      destruct (le_lt_dec (4 + length input + length c) i) as [H | H].
      * destruct (boundary_at _ i) eqn:E; [| reflexivity].
        apply boundary_at_lt in E. rewrite !length_app in E. simpl in E. lia.
      * rewrite first_boundary_None in Hnone. apply Hnone. lia.
Qed.

Lemma slice_take (c : Buffer) (m : nat) :
  (m <= length c)%nat -> Buf.slice c 0 (Z.of_nat m) = take m c.
Proof.
  intros H. unfold Buf.slice, Buf.clamp. simpl.
  destruct (Z.ltb_spec (Z.of_nat m) 0) as [? | _]; [lia |].
  rewrite (Z.min_l (Z.of_nat m)) by lia. rewrite (Z.min_l 0) by lia.
  rewrite Nat2Z.id. simpl. now rewrite Nat.sub_0_r.
Qed.

Lemma slice_from_drop (c : Buffer) (m : nat) :
  (m <= length c)%nat -> Buf.slice_from c (Z.of_nat m) = drop m c.
Proof.
  intros H. unfold Buf.slice_from, Buf.clamp.
  destruct (Z.ltb_spec (Z.of_nat m) 0) as [? | _]; [lia |].
  rewrite Z.min_l by lia. now rewrite Nat2Z.id.
Qed.

Lemma concat_exact (chunks : list Buffer) :
  Buf.concat chunks (Z.of_nat (length (List.concat chunks))) = Some (List.concat chunks).
Proof.
  unfold Buf.concat.
  destruct (Z.ltb_spec (Z.of_nat (length (List.concat chunks))) 0) as [? | _]; [lia |].
  rewrite Nat2Z.id. now rewrite take_app_length.
Qed.

(** The chunk that completes the first terminator, seen from
    [checkHeaders]: [headerPos] lies inside the chunk, the header bytes end
    with the bytes of the chunk before it, the headers are announced, and the
    rest of the chunk is queued for downstream when it is longer than one
    byte. *)
Lemma checkHeaders_boundary (input data : Buffer) (rt : Runtime) (i : nat) :
  Accumulating input rt ->
  first_boundary (lastBytes (this rt) ++ data)
                 (length (lastBytes (this rt)) + length data) 0 = Some i ->
  let headerPos := (i - 3)%nat in
  (1 <= headerPos <= length data)%nat
  /\ Z.of_nat headerPos = Z.of_nat i - Z.of_nat (length (lastBytes (this rt))) + 1
  /\ exists rt' h,
       checkHeaders data rt = (Normal false, rt')
       /\ errored rt' = false
       /\ headersParsed (this rt') = true
       /\ headerChunks (this rt') = None
       /\ rawHeaders (this rt') = Some (input ++ take headerPos data)
       /\ headerBytes (this rt') = Z.of_nat (length input) + Z.of_nat headerPos
       /\ parseHeaders (input ++ take headerPos data) = Some h
       /\ emitted rt' = [EvHeaders h]
       /\ immediates rt'
          = if Z.of_nat (length data) - 1 >? Z.of_nat headerPos
            then [ImmPush (drop headerPos data)] else [].
Proof.
  intros [He Hi Hem Hp (hc & Hc & Hcat) Hb Hl Hclear] Hscan headerPos.
  assert (Hlen : length (lastBytes (this rt)) = 4%nat) by (rewrite Hl; apply window_length).
  pose proof Hscan as Hat.
  apply first_boundary_Some in Hat as (Hlt & Hat & _). rewrite Hlen in Hlt.
  assert (Hge : (4 <= i)%nat).
  { destruct (le_lt_dec 4 i) as [? | Hlow]; [assumption |].
    rewrite Hl, window_boundary in Hat by assumption.
    rewrite padded_boundary_low in Hat by (assumption || lia). discriminate. }
  assert (Hpos : Z.of_nat i - Z.of_nat (length (lastBytes (this rt))) + 1
                 = Z.of_nat headerPos) by (rewrite Hlen; unfold headerPos; lia).
  assert (Hraw : Buf.concat (hc ++ [Buf.slice data 0 (Z.of_nat headerPos)])
                            (headerBytes (this rt) + Z.of_nat headerPos)
                 = Some (input ++ take headerPos data)).
  { rewrite slice_take by (unfold headerPos; lia).
    replace (headerBytes (this rt) + Z.of_nat headerPos)
      with (Z.of_nat (length (List.concat (hc ++ [take headerPos data])))).
    - rewrite concat_exact, concat_app, Hcat. simpl. now rewrite app_nil_r.
    - rewrite concat_app, Hcat. simpl. rewrite app_nil_r, length_app, Hb.
      rewrite length_take. unfold headerPos. lia. }
  pose proof (checkHeaders_found rt data hc i Hp Hc Hscan) as Hfound.
  cbv zeta in Hfound. rewrite Hpos in Hfound.
  specialize (Hfound _ Hraw).
  rewrite slice_from_drop in Hfound by (unfold headerPos; lia).
  split; [unfold headerPos; lia |]. split; [now rewrite Hpos |].
  eexists _, _. split; [exact Hfound |]. fields.
  rewrite Hb, Hem, Hi, He. repeat split; try reflexivity.
  apply parseHeaders_unfold.
Qed.

(** The same chunk, seen from the stream: the headers end right behind the
    terminator and are announced; the rest of the chunk follows downstream
    unless it is a single byte. *)
Lemma write_accumulating_found (input c : Buffer) (rt : Runtime) (j : nat) :
  Accumulating input rt -> c <> [] ->
  first_boundary (Buf.alloc 4 ++ input ++ c) (4 + length input + length c) 0 = Some j ->
  exists rt',
    write c rt = (Normal tt, rt')
    /\ (4 + length input <= j < 4 + length input + length c)%nat
    /\ Forwarding (take (j - 3) (input ++ c))
                  (if decide (length (input ++ c) = S (j - 3)) then []
                   else drop (j - 3) (input ++ c))
                  rt'.
Proof.
  intros Hacc Hne Hsome.
  pose proof Hacc as [He _ _ _ _ _ Hl Hclear].
  rewrite app_assoc in Hsome.
  pose proof (window_scan_ge input Hclear c j Hsome) as Hj.
  assert (Hscan : first_boundary (lastBytes (this rt) ++ c)
                    (length (lastBytes (this rt)) + length c) 0
                  = Some (j - length input)%nat).
  { rewrite Hl, window_length, window_scan by assumption. now rewrite Hsome. }
  destruct (checkHeaders_boundary input c rt _ Hacc Hscan)
    as (Hm & _ & rt1 & h & Hcheck & He1 & Hp1 & Hc1 & Hr1 & Hb1 & Hh & Hem1 & Hi1).
  set (m := (j - length input - 3)%nat) in *.
  assert (Htake : take (j - 3) (input ++ c) = input ++ take m c).
  { rewrite take_app. rewrite take_ge by lia. f_equal. f_equal. unfold m. lia. }
  assert (Hdrop : drop (j - 3) (input ++ c) = drop m c).
  { rewrite drop_app. rewrite drop_ge by lia. simpl. f_equal. unfold m. lia. }
  rewrite Htake, Hdrop, length_app.
  rewrite (write_unparsed c rt rt1 He Hne Hcheck), He1, Hem1, Hi1.
  destruct (Z.of_nat (length c) - 1 >? Z.of_nat m) eqn:Hmore;
    (eexists; split; [reflexivity | split; [exact Hj |]]);
    constructor; fields; try assumption; try reflexivity.
  - rewrite Hb1, length_app, length_take. lia.
  - exists h, [drop m c]. split; [assumption |].
    split; [reflexivity |]. simpl. rewrite app_nil_r.
    case_decide; [| reflexivity].
    apply Z.gtb_lt in Hmore. lia.
  - rewrite Hb1, length_app, length_take. lia.
  - exists h, []. split; [assumption |].
    split; [reflexivity |]. simpl.
    case_decide; [reflexivity |].
    rewrite drop_ge; [reflexivity |].
    assert (~ Z.of_nat m < Z.of_nat (length c) - 1).
    { intros Hlt. apply Z.gtb_lt in Hlt. congruence. }
    lia.
Qed.

(** Once the headers are out, a chunk passes through as it is. *)
Lemma write_forwarding (raw body c : Buffer) (rt : Runtime) :
  Forwarding raw body rt ->
  exists rt', write c rt = (Normal tt, rt') /\ Forwarding raw (body ++ c) rt'.
Proof.
  intros [He Hi Hp Hc Hr Hb (h & bs & Hh & Hem & Hcat)].
  destruct (decide (c = [])) as [-> | Hne].
  - exists rt. split; [now apply write_empty |].
    rewrite app_nil_r. constructor; eauto.
  - eexists. split.
    + unfold write. rewrite He.
      unfold _transform. rewrite (nonempty_length c Hne).
      unfold JsM.bind at 1 2. unfold JsM.try.
      rewrite (checkHeaders_parsed rt c Hp).
      cbn. rewrite Hi. cbn. reflexivity.
    + constructor; fields; try assumption; try reflexivity.
      exists h, (bs ++ [c]). split; [assumption |]. split.
      * rewrite Hem, fmap_app. reflexivity.
      * rewrite concat_app, Hcat. simpl. now rewrite app_nil_r.
Qed.

End Write.

(** ** Whole streams *)

Section Stream.

Lemma start_accumulating : Accumulating [] start.
Proof.
  constructor; try reflexivity.
  - exists []. split; reflexivity.
  - intros i. destruct (le_lt_dec 4 i) as [H | H].
    + destruct (boundary_at _ i) eqn:E; [| reflexivity].
      apply boundary_at_lt in E. simpl in E. lia.
    + now apply boundary_at_alloc_low.
Qed.

(** The end of the input while still accumulating: a terminator is added to
    the header bytes, the headers are announced, and a lone CR LF is the
    body. *)
Lemma end_accumulating (input : Buffer) (rt : Runtime) :
  Accumulating input rt ->
  exists rt' h,
    end_ rt = (Normal tt, rt')
    /\ parseHeaders (input ++ [x0d; x0a; x0d; x0a]) = Some h
    /\ emitted rt' = [EvHeaders h; EvData ([x0d; x0a])]
    /\ rawHeaders (this rt') = Some (input ++ [x0d; x0a; x0d; x0a])
    /\ headerBytes (this rt') = Z.of_nat (length input) + 4
    /\ errored rt' = false.
Proof.
  intros [He Hi Hem Hp (hc & Hc & Hcat) Hb Hl Hclear].
  assert (Hraw : Buf.concat (hc ++ [[x0d; x0a; x0d; x0a]])
                            (headerBytes (this rt) + 4)
                 = Some (input ++ [x0d; x0a; x0d; x0a])).
  { replace (headerBytes (this rt) + 4)
      with (Z.of_nat (length (List.concat (hc ++ [[x0d; x0a; x0d; x0a]])))).
    - rewrite concat_exact, concat_app, Hcat. simpl. reflexivity.
    - rewrite concat_app, Hcat, length_app, Hb. simpl. lia. }
  eexists _, _. split; [| split; [apply parseHeaders_unfold |]].
  - unfold end_. rewrite He.
    unfold _flush, JsM.bind at 1, JsM.getThis. rewrite Hc.
    change (Buf.from (Text.crlf ++ Text.crlf)) with [x0d; x0a; x0d; x0a].
    change (Buf.from Text.crlf) with [x0d; x0a].
    cbn -[Buf.concat parseHeaders].
    rewrite Hraw.
    cbn -[Buf.concat parseHeaders].
    rewrite parseHeaders_unfold.
    cbn -[Buf.concat parseHeaders lines_of unfold_lines].
    reflexivity.
  - fields. rewrite Hem, Hb, He. repeat split; reflexivity.
Qed.

Lemma end_forwarding (raw body : Buffer) (rt : Runtime) :
  Forwarding raw body rt -> end_ rt = (Normal tt, rt).
Proof.
  intros [He Hi Hp Hc Hr Hb Hem].
  unfold end_. rewrite He.
  unfold _flush, JsM.bind, JsM.getThis. now rewrite Hc.
Qed.

Lemma feed_forwarding (cs : list Buffer) :
  forall (raw body : Buffer) (rt : Runtime),
    Forwarding raw body rt ->
    exists rt', feed cs rt = (Normal tt, rt')
                /\ Forwarding raw (body ++ List.concat cs) rt'.
Proof.
  induction cs as [|c cs IH]; intros raw body rt H.
  - exists rt. split; [reflexivity |]. simpl. now rewrite app_nil_r.
  - destruct (write_forwarding raw body c rt H) as (rt1 & Hw & H1).
    destruct (IH _ _ _ H1) as (rt2 & Hf & H2).
    exists rt2. split.
    + cbn [feed]. unfold JsM.bind. now rewrite Hw.
    + simpl. now rewrite app_assoc.
Qed.

(** The first terminator of what has been written is the first terminator of
    the whole input, whatever follows. *)
Lemma split_found (input c rest : Buffer) (j : nat) :
  first_boundary (Buf.alloc 4 ++ input ++ c) (4 + length input + length c) 0 = Some j ->
  (4 + length input <= j)%nat ->
  Split ((input ++ c) ++ rest)
        (take (j - 3) (input ++ c))
        ((if decide (length (input ++ c) = S (j - 3)) then []
          else drop (j - 3) (input ++ c)) ++ rest).
Proof.
  intros Hf Hj.
  apply first_boundary_Some in Hf as (Hr & Hb & Hl).
  rewrite app_assoc in Hb.
  replace j with (4 + (j - 4))%nat in Hb by lia.
  rewrite <- app_assoc, boundary_at_alloc in Hb.
  assert (Hlen : (j - 4 < length (input ++ c))%nat) by (rewrite length_app; lia).
  exists (j - 4)%nat. split; [| split].
  - apply first_boundary_leftmost.
    + rewrite !length_app in *. lia.
    + now rewrite boundary_at_app_l.
    + intros k Hk. rewrite boundary_at_app_l by lia.
      rewrite <- boundary_at_alloc. apply Hl. lia.
  - replace (S (j - 4)) with (j - 3)%nat by lia.
    rewrite (take_app_le (input ++ c) rest) by lia. reflexivity.
  - case_decide as Hd.
    + right. simpl. rewrite (drop_app_length' (input ++ c) rest); [reflexivity | lia].
    + left. replace (S (j - 4)) with (j - 3)%nat by lia.
      rewrite (drop_app_le (input ++ c) rest) by lia. reflexivity.
Qed.

Lemma feed_accumulating (cs : list Buffer) :
  forall (input : Buffer) (rt : Runtime),
    Accumulating input rt ->
    exists rt',
      feed cs rt = (Normal tt, rt')
      /\ (Accumulating (input ++ List.concat cs) rt'
          \/ exists raw body,
               Forwarding raw body rt' /\ Split (input ++ List.concat cs) raw body).
Proof.
  induction cs as [|c cs IH]; intros input rt H.
  - exists rt. split; [reflexivity |]. left. simpl. now rewrite app_nil_r.
  - destruct (decide (c = [])) as [-> | Hne].
    + destruct (IH _ _ H) as (rt2 & Hf & H2).
      exists rt2. split; [| exact H2].
      cbn [feed]. unfold JsM.bind. rewrite write_empty by apply H. exact Hf.
    + destruct (first_boundary (Buf.alloc 4 ++ input ++ c)
                  (4 + length input + length c) 0) as [j|] eqn:E.
      * destruct (write_accumulating_found input c rt j H Hne E) as (rt1 & Hw & Hj & H1).
        destruct (feed_forwarding cs _ _ _ H1) as (rt2 & Hf & H2).
        exists rt2. split.
        -- cbn [feed]. unfold JsM.bind. now rewrite Hw.
        -- right. eexists _, _. split; [exact H2 |].
           simpl. rewrite app_assoc. apply split_found; [assumption | lia].
      * destruct (write_accumulating_none input c rt H Hne E) as (rt1 & Hw & H1).
        destruct (IH _ _ H1) as (rt2 & Hf & H2).
        exists rt2. split.
        -- cbn [feed]. unfold JsM.bind. now rewrite Hw.
        -- simpl. now rewrite app_assoc.
Qed.

(** What a stream does, told from the whole input. *)
Lemma run_outcome (chunks : list Buffer) :
  let whole := List.concat chunks in
  exists rt h bs,
    run chunks = (Normal tt, rt)
    /\ emitted rt = EvHeaders h :: (EvData <$> bs)
    /\ errored rt = false
    /\ ((first_boundary whole (length whole) 0 = None
         /\ parseHeaders (whole ++ [x0d; x0a; x0d; x0a]) = Some h
         /\ bs = [[x0d; x0a]]
         /\ rawHeaders (this rt) = Some (whole ++ [x0d; x0a; x0d; x0a])
         /\ headerBytes (this rt) = Z.of_nat (length whole) + 4)
        \/ exists raw,
             Split whole raw (List.concat bs)
             /\ parseHeaders raw = Some h
             /\ rawHeaders (this rt) = Some raw
             /\ headerBytes (this rt) = Z.of_nat (length raw)).
Proof.
  intros whole.
  destruct (feed_accumulating chunks [] start start_accumulating) as (rt1 & Hf & H).
  simpl in H. fold whole in H.
  destruct H as [H | (raw & body & H & Hs)].
  - destruct (end_accumulating whole rt1 H) as (rt2 & h & He & Hh & Hem & Hr & Hb & Herr).
    exists rt2, h, [[x0d; x0a]]. split; [| split; [exact Hem | split; [exact Herr |]]].
    + unfold run, JsM.bind. now rewrite Hf.
    + left. repeat split; try assumption.
      apply first_boundary_None. intros k _.
      rewrite <- boundary_at_alloc. apply H.
  - pose proof (end_forwarding raw body rt1 H) as He.
    destruct H as [Herr _ _ _ Hr Hb (h & bs & Hh & Hem & Hcat)].
    exists rt1, h, bs. split; [| split; [exact Hem | split; [exact Herr |]]].
    + unfold run, JsM.bind. now rewrite Hf.
    + right. exists raw. rewrite Hcat. auto.
Qed.

End Stream.

(** ** Accounting and fragmentation *)

Section Accounting.

Lemma headers_of_data (bs : list Buffer) : headers_of (EvData <$> bs) = [].
Proof. induction bs as [|b bs IH]; [reflexivity | exact IH]. Qed.

Lemma body_of_data (bs : list Buffer) : body_of (EvData <$> bs) = List.concat bs.
Proof.
  induction bs as [|b bs IH]; [reflexivity |].
  change (body_of (EvData <$> b :: bs)) with (b ++ body_of (EvData <$> bs)).
  now rewrite IH.
Qed.

Lemma headers_of_trace (h : list Line) (bs : list Buffer) :
  headers_of (EvHeaders h :: (EvData <$> bs)) = [h].
Proof.
  change (headers_of (EvHeaders h :: (EvData <$> bs)))
    with (h :: headers_of (EvData <$> bs)).
  now rewrite headers_of_data.
Qed.

Lemma body_of_trace (h : list Line) (bs : list Buffer) :
  body_of (EvHeaders h :: (EvData <$> bs)) = List.concat bs.
Proof.
  change (body_of (EvHeaders h :: (EvData <$> bs))) with (body_of (EvData <$> bs)).
  apply body_of_data.
Qed.

(** However the input is cut into chunks, the same headers are announced. *)
Lemma headers_fragmentation (chunks : list Buffer) :
  headers_of (emitted (snd (run chunks)))
  = headers_of (emitted (snd (run [List.concat chunks]))).
Proof.
  destruct (run_outcome chunks) as (rt1 & h1 & bs1 & -> & E1 & _ & H1).
  destruct (run_outcome [List.concat chunks]) as (rt2 & h2 & bs2 & -> & E2 & _ & H2).
  cbv zeta in H1, H2. simpl in H2. rewrite app_nil_r in H2.
  cbn [snd]. rewrite E1, E2, !headers_of_trace. f_equal.
  destruct H1 as [(Hn1 & Hp1 & _) | (raw1 & (j1 & Hj1 & -> & _) & Hp1 & _)];
    destruct H2 as [(Hn2 & Hp2 & _) | (raw2 & (j2 & Hj2 & -> & _) & Hp2 & _)];
    try congruence.
Qed.

(** The body that reaches downstream is what follows the first terminator,
    in full or without its first byte. *)
Lemma body_fragmentation (chunks : list Buffer) (j : nat) :
  let whole := List.concat chunks in
  first_boundary whole (length whole) 0 = Some j ->
  let body := body_of (emitted (snd (run chunks))) in
  body = drop (S j) whole \/ body = drop (S (S j)) whole.
Proof.
  intros whole Hj.
  destruct (run_outcome chunks) as (rt & h & bs & -> & E & _ & H).
  cbv zeta in H. fold whole in H. cbn [snd]. rewrite E, body_of_trace.
  destruct H as [(Hn & _) | (raw & (j' & Hj' & _ & Hb) & _)]; [congruence |].
  replace j' with j in Hb by congruence. exact Hb.
Qed.

End Accounting.

(** * The claims *)

Section Claims.

Lemma indexOf_absent (s : string) (c : ascii) :
  ~ In c (list_ascii_of_string s) -> Text.indexOf s c = -1.
Proof.
  induction s as [|d s IH]; simpl; intros H; [reflexivity |].
  destruct (Ascii.eqb_spec d c) as [-> | _]; [tauto |].
  rewrite IH by tauto. reflexivity.
Qed.

Lemma entry_of_no_colon (l : string) :
  ~ In Text.COLON (list_ascii_of_string l) -> entry_of l = {| key := EmptyString; line := l |}.
Proof.
  intros H. unfold entry_of. now rewrite (indexOf_absent l Text.COLON H).
Qed.

(** The first logical line is the first line with the run of continuation
    lines behind it; the others are unfolded on their own. *)
Lemma unfold_from_run (conts : list string) :
  forall (cur : string) (others : list string),
    Forall (fun c => is_folded c = true) conts ->
    hd_error others = None \/ (exists o, hd_error others = Some o /\ is_folded o = false) ->
    unfold_from cur (conts ++ others) = join_folded cur conts :: unfold_lines others.
Proof.
  induction conts as [|c conts IH]; intros cur others Hc Ho.
  - destruct others as [|o others]; [reflexivity |]. simpl.
    destruct Ho as [Ho | (o' & Ho & Hf)]; [discriminate |].
    injection Ho as <-. now rewrite Hf.
  - inversion Hc as [|? ? Hc1 Hc2]; subst. simpl. rewrite Hc1.
    now apply IH.
Qed.

Lemma folded_run (L : list string) :
  exists conts others,
    L = conts ++ others
    /\ Forall (fun c => is_folded c = true) conts
    /\ (hd_error others = None \/ exists o, hd_error others = Some o /\ is_folded o = false).
Proof.
  induction L as [|x L (conts & others & -> & Hc & Ho)].
  - exists [], []. repeat split; [constructor | now left].
  - destruct (is_folded x) eqn:E.
    + exists (x :: conts), others. repeat split; [now constructor | exact Ho].
    + exists [], (x :: conts ++ others). repeat split; [constructor |].
      right. exists x. now split.
Qed.

(** C3.  Single emission and ordering: for every stream run to completion,
    whatever its chunks, the stream ends without an error, the header
    notification is produced exactly once, and it is the first thing a
    consumer observes: every body chunk, also the rest of the chunk that
    brought the boundary and the body made up at the end of a stream without
    boundary, comes after it. *)
Theorem single_emission_before_body (chunks : list Buffer) :
  exists rt h bs,
    run chunks = (Normal tt, rt)
    /\ emitted rt = EvHeaders h :: (EvData <$> bs)
    /\ headers_of (emitted rt) = [h]
    /\ body_of (emitted rt) = List.concat bs.
Proof.
  destruct (run_outcome chunks) as (rt & h & bs & Hr & He & _).
  exists rt, h, bs. rewrite He, headers_of_trace, body_of_trace. auto.
Qed.

(** C9.  The header block is never empty: [parseHeaders] returns at least
    one entry for every buffer, the empty buffer gives the single entry with
    empty key and empty line, and every completed stream, also the one
    without any input, announces headers with at least one entry. *)
Theorem header_block_never_empty :
  (forall raw : Buffer, exists e es, parseHeaders raw = Some (Obj e :: (Obj <$> es)))
  /\ parseHeaders [] = Some [Obj {| key := EmptyString; line := EmptyString |}]
  /\ (forall chunks : list Buffer,
         exists rt e es bs,
           run chunks = (Normal tt, rt)
           /\ emitted rt = EvHeaders (Obj e :: (Obj <$> es)) :: (EvData <$> bs))
  /\ emitted (snd (run []))
     = [EvHeaders [Obj {| key := EmptyString; line := EmptyString |}]; EvData [x0d; x0a]].
Proof.
  split; [exact parseHeaders_cons |]. split; [reflexivity |]. split; [| reflexivity].
  intros chunks.
  destruct (run_outcome chunks) as (rt & h & bs & Hr & He & _ & H).
  assert (Hh : exists raw, parseHeaders raw = Some h).
  { destruct H as [(_ & Hp & _) | (raw & _ & Hp & _)]; eauto. }
  destruct Hh as (raw & Hp).
  destruct (parseHeaders_cons raw) as (e & es & Hp').
  exists rt, e, es, bs. split; [exact Hr |]. rewrite He. congruence.
Qed.

(** C6.  No boundary: when the input, in whatever chunks, holds no
    blank-line terminator, the stream ends without an error; the header
    bytes are the whole input followed by CR LF CR LF, the headers parsed
    from them are announced, and the body is the two bytes CR LF.  The input
    [X-Test: 1] gives the entry with key [x-test] and line [X-Test: 1]. *)
Theorem no_boundary_degradation :
  (forall chunks : list Buffer,
      (forall i, boundary_at (List.concat chunks) i = false) ->
      exists rt h,
        run chunks = (Normal tt, rt)
        /\ errored rt = false
        /\ rawHeaders (this rt) = Some (List.concat chunks ++ [x0d; x0a; x0d; x0a])
        /\ headerBytes (this rt) = Z.of_nat (length (List.concat chunks)) + 4
        /\ parseHeaders (List.concat chunks ++ [x0d; x0a; x0d; x0a]) = Some h
        /\ emitted rt = [EvHeaders h; EvData [x0d; x0a]])
  /\ fst (run [Sample.no_boundary]) = Normal tt
  /\ emitted (snd (run [Sample.no_boundary]))
     = [EvHeaders [Obj {| key := "x-test"; line := "X-Test: 1" |}];
        EvData [x0d; x0a]].
Proof.
  split; [| split; reflexivity].
  intros chunks Hclear.
  destruct (run_outcome chunks) as (rt & h & bs & Hr & He & Herr & H).
  cbv zeta in H.
  destruct H as [(_ & Hp & -> & Hraw & Hb) | (raw & (j & Hj & _) & _)].
  - exists rt, h. repeat split; assumption.
  - apply first_boundary_Some in Hj as (_ & Hj & _). rewrite Hclear in Hj. discriminate.
Qed.

Lemma no_boundary_degradation_witness :
  exists rt h,
    run [Sample.no_boundary] = (Normal tt, rt)
    /\ errored rt = false
    /\ rawHeaders (this rt) = Some (List.concat [Sample.no_boundary] ++ [x0d; x0a; x0d; x0a])
    /\ headerBytes (this rt) = Z.of_nat (length (List.concat [Sample.no_boundary])) + 4
    /\ parseHeaders (List.concat [Sample.no_boundary] ++ [x0d; x0a; x0d; x0a]) = Some h
    /\ emitted rt = [EvHeaders h; EvData [x0d; x0a]].
Proof.
  apply (proj1 no_boundary_degradation [Sample.no_boundary]).
  intros i. do 12 (destruct i as [|i]; [reflexivity |]). reflexivity.
Defined.

(** C7.  The parser is total: for every buffer [parseHeaders] returns, and
    what it returns are the entries of the unfolded lines, in order.  A line
    without a colon gives an entry with the empty key and the line as it is.
    The input [X-Broken\r\n\r\nBODY] gives the one entry with empty key and
    line [X-Broken], and the body [BODY]. *)
Theorem parse_total_no_colon :
  (forall raw : Buffer,
      exists es, parseHeaders raw = Some (Obj <$> es)
                 /\ es = entry_of <$> unfold_lines (lines_of raw))
  /\ (forall l : string,
         ~ In Text.COLON (list_ascii_of_string l) ->
         entry_of l = {| key := EmptyString; line := l |})
  /\ fst (run [Sample.no_colon]) = Normal tt
  /\ emitted (snd (run [Sample.no_colon]))
     = [EvHeaders [Obj {| key := EmptyString; line := "X-Broken" |}]; EvData (Buf.from "BODY")].
Proof.
  split; [| split; [exact entry_of_no_colon | split; reflexivity]].
  intros raw. eexists. split; [apply parseHeaders_unfold | reflexivity].
Qed.

Lemma parse_total_no_colon_witness :
  entry_of "X-Broken" = {| key := EmptyString; line := "X-Broken" |}.
Proof.
  apply (proj1 (proj2 parse_total_no_colon) "X-Broken"%string).
  simpl. intros H. repeat (destruct H as [H | H]; [discriminate |]). exact H.
Defined.

(** C4, as the code has it.  The input [Subject: Hello\r\n World\r\n\r\nBODY]
    gives one entry with key [subject] whose line is [Subject: Hello], a
    newline, and [ World] with its leading space, and the body [BODY].  In
    general the entries are those of the unfolded lines: a line that starts
    with a space or a tab and is not the first is appended whole to the line
    before it, after one newline, and lines that do not start so stay as
    they are, in their order. *)
Theorem folding_keeps_leading_space :
  emitted (snd (run [Sample.folded]))
  = [EvHeaders [Obj {| key := "subject"; line := Sample.folded_line |}];
     EvData (Buf.from "BODY")]
  /\ (forall raw : Buffer,
         parseHeaders raw = Some (Obj <$> (entry_of <$> unfold_lines (lines_of raw))))
  /\ (forall (P : list string) (a c : string) (Q : list string),
         is_folded c = true ->
         unfold_lines (P ++ a :: c :: Q)
         = unfold_lines (P ++ (a ++ Text.newline ++ c)%string :: Q))
  /\ (forall (l : string) (L : list string),
         Forall (fun x => is_folded x = false) L ->
         unfold_lines (l :: L) = l :: L).
Proof.
  split; [reflexivity |]. split; [exact parseHeaders_unfold |].
  split; [exact unfold_lines_merge |].
  intros l L H. now apply unfold_from_plain.
Qed.

Lemma folding_keeps_leading_space_witness :
  unfold_lines ([] ++ "Subject: Hello"%string :: " World"%string :: [])
  = unfold_lines ([] ++ Sample.folded_line :: []).
Proof.
  apply (proj1 (proj2 (proj2 folding_keeps_leading_space))
               [] "Subject: Hello"%string " World"%string []).
  reflexivity.
Defined.

(** C4, as the specification has it, fails: the line of the entry is not
    [Subject: Hello], a newline, and [World]. *)
Lemma folding_strips_nothing :
  headers_of (emitted (snd (run [Sample.folded])))
  <> [[Obj {| key := "subject"; line := Sample.folded_line_stripped |}]].
Proof. vm_compute. discriminate. Qed.

(** C10.  A first line that starts with a space or a tab is not merged into
    anything: it opens the first entry, whatever follows.  The line of that
    entry is the first line with the continuation lines right behind it, and
    its key is the normalized text before its first colon. *)
Theorem first_line_never_merged (raw : Buffer) (l : string) (L : list string) :
  lines_of raw = l :: L ->
  is_folded l = true ->
  exists conts others e es,
    L = conts ++ others
    /\ Forall (fun c => is_folded c = true) conts
    /\ (hd_error others = None
        \/ exists o, hd_error others = Some o /\ is_folded o = false)
    /\ parseHeaders raw = Some (Obj e :: (Obj <$> es))
    /\ line e = join_folded l conts
    /\ key e = _normalizeHeader
                 (Text.substr (line e) 0 (Text.indexOf (line e) Text.COLON))
    /\ es = entry_of <$> unfold_lines others.
Proof.
  intros Hl _.
  destruct (folded_run L) as (conts & others & -> & Hc & Ho).
  exists conts, others, (entry_of (join_folded l conts)),
         (entry_of <$> unfold_lines others).
  repeat split; try assumption.
  rewrite parseHeaders_unfold, Hl. cbn [unfold_lines].
  now rewrite unfold_from_run.
Qed.

Lemma first_line_never_merged_witness :
  exists conts others e es,
    [] = conts ++ others
    /\ Forall (fun c => is_folded c = true) conts
    /\ (hd_error others = None
        \/ exists o, hd_error others = Some o /\ is_folded o = false)
    /\ parseHeaders Sample.leading_space = Some (Obj e :: (Obj <$> es))
    /\ line e = join_folded " X: 1" conts
    /\ key e = _normalizeHeader
                 (Text.substr (line e) 0 (Text.indexOf (line e) Text.COLON))
    /\ es = entry_of <$> unfold_lines others.
Proof.
  apply (first_line_never_merged Sample.leading_space " X: 1"%string []); reflexivity.
Defined.

Lemma first_boundary_alloc (c : Buffer) :
  first_boundary (Buf.alloc 4 ++ c) (4 + length c) 0
  = (fun j => (4 + j)%nat) <$> first_boundary c (length c) 0.
Proof.
  destruct (first_boundary c (length c) 0) as [j|] eqn:E;
    cbn [fmap option_fmap option_map].
  - apply first_boundary_Some in E as (Hr & Hb & Hl).
    apply first_boundary_leftmost; [lia | now rewrite boundary_at_alloc |].
    intros k Hk. destruct (le_lt_dec 4 k) as [H | H].
    + replace k with (4 + (k - 4))%nat by lia. rewrite boundary_at_alloc. apply Hl. lia.
    + now apply boundary_at_alloc_low.
  - rewrite first_boundary_None in E. apply first_boundary_None.
    intros k Hk. destruct (le_lt_dec 4 k) as [H | H].
    + replace k with (4 + (k - 4))%nat by lia. rewrite boundary_at_alloc. apply E. lia.
    + now apply boundary_at_alloc_low.
Qed.

(** The detection rule as the code keeps it.  Over the window followed by
    the chunk, the search loop leaves everything as it is when no terminator
    completes anywhere; otherwise it stops at the leftmost index [i] at which
    LF LF or LF CR LF completes, sets [headersParsed], and computes
    [headerPos] as the offset into the chunk right behind that byte.  In a
    stream that is accumulating, [headerPos] lies inside the chunk and the
    bytes of the chunk before it end the header bytes; the bytes from it on
    are queued for downstream only when more than one byte is left.  The rule
    also fires on a bare LF followed by CR LF. *)
Theorem boundary_detection_rule :
  (forall (t : MessageSplitter) (data : Buffer) (hp : Z),
      (forall k, boundary_at (lastBytes t ++ data) k = false) ->
      scan (length (lastBytes t) + length data) 0 data hp t = (hp, t))
  /\ (forall (t : MessageSplitter) (data : Buffer) (hp : Z) (i : nat),
         boundary_at (lastBytes t ++ data) i = true ->
         (forall k, (k < i)%nat -> boundary_at (lastBytes t ++ data) k = false) ->
         let headerPos := Z.of_nat i - Z.of_nat (length (lastBytes t)) + 1 in
         scan (length (lastBytes t) + length data) 0 data hp t
         = (headerPos,
            set_headerBytes (headerBytes t + headerPos) (set_headersParsed true t)))
  /\ (forall (input data : Buffer) (rt : Runtime) (i : nat),
         Accumulating input rt ->
         boundary_at (lastBytes (this rt) ++ data) i = true ->
         (forall k, (k < i)%nat -> boundary_at (lastBytes (this rt) ++ data) k = false) ->
         let headerPos := (i - 3)%nat in
         (1 <= headerPos <= length data)%nat
         /\ Z.of_nat headerPos = Z.of_nat i - Z.of_nat (length (lastBytes (this rt))) + 1
         /\ exists rt' h,
              checkHeaders data rt = (Normal false, rt')
              /\ headersParsed (this rt') = true
              /\ rawHeaders (this rt') = Some (input ++ take headerPos data)
              /\ headerBytes (this rt') = Z.of_nat (length input) + Z.of_nat headerPos
              /\ parseHeaders (input ++ take headerPos data) = Some h
              /\ emitted rt' = [EvHeaders h]
              /\ immediates rt'
                 = if Z.of_nat (length data) - 1 >? Z.of_nat headerPos
                   then [ImmPush (drop headerPos data)] else [])
  /\ (boundary_at Sample.mixed 6 = true
      /\ take 7 Sample.mixed = Buf.from ("A: 1" ++ Sample.lf ++ Sample.crlf)
      /\ emitted (snd (run [Sample.mixed]))
         = [EvHeaders [Obj {| key := "a"; line := "A: 1" |}];
            EvData (drop 7 Sample.mixed)]).
Proof.
  assert (Hfirst : forall (v : Buffer) (i : nat),
             boundary_at v i = true ->
             (forall k, (k < i)%nat -> boundary_at v k = false) ->
             first_boundary v (length v) 0 = Some i).
  { intros v i Hat Hleft. apply first_boundary_leftmost; [| assumption |].
    - apply boundary_at_lt in Hat. lia.
    - intros k Hk. apply Hleft. lia. }
  split; [| split; [| split; [| repeat split; reflexivity]]].
  - intros t data hp Hnone. rewrite scan_first_boundary.
    replace (first_boundary _ _ 0) with (@None nat); [reflexivity |].
    symmetry. apply first_boundary_None. intros k _. apply Hnone.
  - intros t data hp i Hat Hleft headerPos. rewrite scan_first_boundary.
    rewrite <- length_app, (Hfirst _ i Hat Hleft). reflexivity.
  - intros input data rt i Hacc Hat Hleft headerPos.
    pose proof (Hfirst _ i Hat Hleft) as Hscan. rewrite length_app in Hscan.
    destruct (checkHeaders_boundary input data rt i Hacc Hscan)
      as (Hr & Hz & rt' & h & Hc & _ & Hp & _ & Hraw & Hb & Hh & Hem & Hi).
    split; [exact Hr |]. split; [exact Hz |].
    exists rt', h. repeat split; assumption.
Qed.

Lemma boundary_detection_rule_witness :
  let headerPos := (10 - 3)%nat in
  (1 <= headerPos <= length Sample.mixed)%nat
  /\ Z.of_nat headerPos = Z.of_nat 10 - Z.of_nat (length (lastBytes (this start))) + 1
  /\ exists rt' h,
       checkHeaders Sample.mixed start = (Normal false, rt')
       /\ headersParsed (this rt') = true
       /\ rawHeaders (this rt') = Some ([] ++ take headerPos Sample.mixed)
       /\ headerBytes (this rt') = Z.of_nat (length (@nil byte)) + Z.of_nat headerPos
       /\ parseHeaders ([] ++ take headerPos Sample.mixed) = Some h
       /\ emitted rt' = [EvHeaders h]
       /\ immediates rt'
          = if Z.of_nat (length Sample.mixed) - 1 >? Z.of_nat headerPos
            then [ImmPush (drop headerPos Sample.mixed)] else [].
Proof.
  apply (proj1 (proj2 (proj2 boundary_detection_rule)) [] Sample.mixed start 10%nat).
  - exact start_accumulating.
  - reflexivity.
  - intros k Hk. do 10 (destruct k as [|k]; [reflexivity |]). lia.
Defined.

(** C5, the code at an input where the bytes behind [headerPos] are not
    treated as body bytes.  The seven bytes [A: 1\n\nB] are the first chunk.
    Over the four zero bytes of the window and the chunk the leftmost
    terminator completes at index 9, the second LF, and the loop returns
    [headerPos = 9 - 4 + 1 = 6]: the rule and the offset are as the claim
    has them, and the six bytes before [headerPos] are the header bytes.  The
    chunk from [headerPos] on is the one byte [B]; [checkHeaders] does not
    queue it and nothing is pushed later, so this byte is in neither part. *)
Theorem detection_one_byte_rest :
  let data := Sample.one_byte_body in
  let t := this start in
  let v := lastBytes t ++ data in
  let rt' := snd (checkHeaders data start) in
  boundary_at v 9 = true
  /\ first_boundary v (length v) 0 = Some 9%nat
  /\ fst (scan (length (lastBytes t) + length data) 0 data 0 t) = 6
  /\ fst (checkHeaders data start) = Normal false
  /\ headersParsed (this rt') = true
  /\ rawHeaders (this rt') = Some (take 6 data)
  /\ drop 6 data = Buf.from "B"
  /\ emitted rt' = [EvHeaders [Obj {| key := "a"; line := "A: 1" |}]]
  /\ immediates rt' = []
  /\ body_of (emitted (snd (run [data]))) = []
  /\ body_of (emitted (snd (run [data]))) <> drop 6 data.
Proof. repeat split; try reflexivity. vm_compute. discriminate. Qed.

(** C8.  The tail window.  When a chunk is consumed while the stream is
    accumulating and no terminator completes in window and chunk together,
    the whole chunk is appended to the header chunks and counted, nothing is
    observed outside, and the window afterwards is the last four bytes of its
    old contents followed by the chunk: for a chunk shorter than four bytes
    the old bytes that survive come first, in their order. *)
Theorem tail_window_update (rt : Runtime) (data : Buffer) (hc : list Buffer) :
  headersParsed (this rt) = false ->
  headerChunks (this rt) = Some hc ->
  length (lastBytes (this rt)) = 4%nat ->
  (forall i, boundary_at (lastBytes (this rt) ++ data) i = false) ->
  exists rt',
    checkHeaders data rt = (Normal false, rt')
    /\ headersParsed (this rt') = false
    /\ headerChunks (this rt') = Some (hc ++ [data])
    /\ headerBytes (this rt') = headerBytes (this rt) + Z.of_nat (length data)
    /\ lastBytes (this rt') = last_n 4 (lastBytes (this rt) ++ data)
    /\ length (lastBytes (this rt')) = 4%nat
    /\ ((length data < 4)%nat ->
        lastBytes (this rt') = drop (length data) (lastBytes (this rt)) ++ data)
    /\ ((4 <= length data)%nat ->
        lastBytes (this rt') = drop (length data - 4) data)
    /\ emitted rt' = emitted rt
    /\ immediates rt' = immediates rt.
Proof.
  intros Hp Hc Hlen Hnone.
  assert (Hscan : first_boundary (lastBytes (this rt) ++ data)
                    (length (lastBytes (this rt)) + length data) 0 = None).
  { apply first_boundary_None. intros k _. apply Hnone. }
  eexists. split; [exact (checkHeaders_accumulate rt data hc Hp Hc Hscan) |].
  fields. rewrite Hlen. unfold last_n. rewrite length_app, Hlen.
  repeat split; try reflexivity.
  - rewrite length_drop, length_app, Hlen. lia.
  - intros Hshort. rewrite drop_app_le by lia. f_equal. f_equal. lia.
  - intros Hlong. rewrite drop_app_ge by lia. f_equal. lia.
Qed.

Lemma tail_window_update_witness :
  exists rt',
    checkHeaders (Buf.from "ab") start = (Normal false, rt')
    /\ headersParsed (this rt') = false
    /\ headerChunks (this rt') = Some ([] ++ [Buf.from "ab"])
    /\ headerBytes (this rt') = headerBytes (this start) + Z.of_nat (length (Buf.from "ab"))
    /\ lastBytes (this rt') = last_n 4 (lastBytes (this start) ++ Buf.from "ab")
    /\ length (lastBytes (this rt')) = 4%nat
    /\ ((length (Buf.from "ab") < 4)%nat ->
        lastBytes (this rt')
        = drop (length (Buf.from "ab")) (lastBytes (this start)) ++ Buf.from "ab")
    /\ ((4 <= length (Buf.from "ab"))%nat ->
        lastBytes (this rt') = drop (length (Buf.from "ab") - 4) (Buf.from "ab"))
    /\ emitted rt' = emitted start
    /\ immediates rt' = immediates start.
Proof.
  apply (tail_window_update start (Buf.from "ab") []); try reflexivity.
  intros i. do 8 (destruct i as [|i]; [reflexivity |]). reflexivity.
Defined.

(** The bytes of a stream fed as one chunk: header bytes and body bytes add
    up to the input, with six bytes more when there is no terminator, and
    with one byte less when exactly one byte follows the terminator. *)
Lemma single_chunk_accounting (c : Buffer) :
  let rt := snd (run [c]) in
  let total := headerBytes (this rt) + Z.of_nat (length (body_of (emitted rt))) in
  match first_boundary c (length c) 0 with
  | None => total = Z.of_nat (length c) + 4 + 2
  | Some j =>
      total = if decide (length c = S (S j)) then Z.of_nat (length c) - 1
              else Z.of_nat (length c)
  end.
Proof.
  destruct (decide (c = [])) as [-> | Hne]; [reflexivity |].
  pose proof (first_boundary_alloc c) as E.
  change (Buf.alloc 4 ++ c) with (Buf.alloc 4 ++ [] ++ c) in E.
  change (4 + length c)%nat with (4 + length (@nil byte) + length c)%nat in E.
  destruct (first_boundary c (length c) 0) as [j|] eqn:Ej;
    cbn [fmap option_fmap option_map] in E.
  - destruct (write_accumulating_found [] c start _ start_accumulating Hne E)
      as (rt1 & Hw & Hj & H1).
    pose proof (end_forwarding _ _ _ H1) as Hend.
    apply first_boundary_Some in Ej as (Hr & _).
    assert (Hrun : run [c] = (Normal tt, rt1)).
    { unfold run. cbn [feed]. unfold JsM.bind. rewrite Hw. cbn. exact Hend. }
    rewrite Hrun. cbn [snd].
    destruct H1 as [_ _ _ _ _ Hb (h & bs & _ & Hem & Hcat)].
    rewrite Hem, body_of_trace, Hcat, Hb. cbn [app].
    replace (4 + j - 3)%nat with (S j) by lia.
    rewrite length_take.
    repeat case_decide; try lia; cbn [length]; rewrite ?length_drop; lia.
  - destruct (write_accumulating_none [] c start start_accumulating Hne E)
      as (rt1 & Hw & H1).
    destruct (end_accumulating _ _ H1) as (rt2 & h & Hend & _ & Hem & _ & Hb & _).
    assert (Hrun : run [c] = (Normal tt, rt2)).
    { unfold run. cbn [feed]. unfold JsM.bind. rewrite Hw. cbn. exact Hend. }
    rewrite Hrun. cbn [snd]. rewrite Hem, Hb. cbn [app]. reflexivity.
Qed.

(** C1, the code at an input that breaks conservation.  The seven bytes
    [A: 1\n\nB] are fed as one chunk.  The terminator completes at byte 5, six
    bytes are counted as header bytes, and the seventh byte, the one body
    byte, is neither counted nor forwarded: no body chunk reaches
    downstream.  Header bytes and body bytes add up to six, not seven. *)
Theorem conservation_one_byte_body :
  let c := Sample.one_byte_body in
  let rt := snd (run [c]) in
  fst (run [c]) = Normal tt
  /\ length c = 7%nat
  /\ first_boundary c (length c) 0 = Some 5%nat
  /\ headerBytes (this rt) = 6
  /\ rawHeaders (this rt) = Some (take 6 c)
  /\ emitted rt = [EvHeaders [Obj {| key := "a"; line := "A: 1" |}]]
  /\ body_of (emitted rt) = []
  /\ bodySize (this rt) = 0
  /\ headerBytes (this rt) + Z.of_nat (length (body_of (emitted rt)))
     <> Z.of_nat (length c).
Proof. repeat split; try reflexivity. vm_compute. discriminate. Qed.

(** C2, the code at inputs that break fragmentation invariance.  The eight
    bytes [A: 1\n\nBC] fed as one chunk give the body [BC]; fed as [A: 1\n\nB]
    and [C] they give the body [C]: the byte [B], alone behind the terminator
    in its chunk, is lost.  The headers are the same in both runs.  The
    chunks [Header: 1\r\n\r] and [\nBODY] of the specification's example
    give the entry with key [header] and the body [BODY]. *)
Theorem fragmentation_one_byte_rest :
  let x := Sample.one_byte_body in
  let y := Buf.from "C" in
  body_of (emitted (snd (run [x ++ y]))) = Buf.from "BC"
  /\ body_of (emitted (snd (run [x; y]))) = Buf.from "C"
  /\ headers_of (emitted (snd (run [x ++ y]))) = headers_of (emitted (snd (run [x; y])))
  /\ body_of (emitted (snd (run [x ++ y]))) <> body_of (emitted (snd (run [x; y])))
  /\ emitted (snd (run [Sample.cross1; Sample.cross2]))
     = [EvHeaders [Obj {| key := "header"; line := "Header: 1" |}];
        EvData (Buf.from "BODY")].
Proof. repeat split; try reflexivity. vm_compute. discriminate. Qed.

End Claims.

(** * Further properties of the splitter *)

Section Chunking.

Lemma feed_app (a b : list Buffer) (rt : Runtime) :
  feed (a ++ b) rt
  = match feed a rt with
    | (Normal _, rt') => feed b rt'
    | (Throw, rt') => (Throw, rt')
    end.
Proof.
  revert rt. induction a as [|c a IH]; intros rt; [reflexivity |].
  cbn [app feed]. unfold JsM.bind.
  destruct (write c rt) as [[[]|] rt1]; [apply IH | reflexivity].
Qed.

Lemma leftmost_first (v : Buffer) (j : nat) :
  boundary_at v j = true ->
  (forall k, (k < j)%nat -> boundary_at v k = false) ->
  first_boundary v (length v) 0 = Some j.
Proof.
  intros Hat Hleft. apply first_boundary_leftmost; [| assumption |].
  - apply boundary_at_lt in Hat. lia.
  - intros k Hk. apply Hleft. lia.
Qed.

(** Where the headers end, for any chunking. *)
Lemma run_boundary (chunks : list Buffer) (j : nat) :
  let whole := List.concat chunks in
  boundary_at whole j = true ->
  (forall k, (k < j)%nat -> boundary_at whole k = false) ->
  exists rt h bs,
    run chunks = (Normal tt, rt)
    /\ emitted rt = EvHeaders h :: (EvData <$> bs)
    /\ rawHeaders (this rt) = Some (take (S j) whole)
    /\ headerBytes (this rt) = Z.of_nat (S j)
    /\ parseHeaders (take (S j) whole) = Some h.
Proof.
  intros whole Hat Hleft.
  pose proof (leftmost_first whole j Hat Hleft) as Hj.
  destruct (run_outcome chunks) as (rt & h & bs & Hr & He & _ & H).
  cbv zeta in H. fold whole in H.
  destruct H as [(Hn & _) | (raw & (j' & Hj' & -> & _) & Hp & Hraw & Hb)]; [congruence |].
  replace j' with j in * by congruence.
  exists rt, h, bs. repeat split; try assumption.
  rewrite Hb, length_take. apply boundary_at_lt in Hat. lia.
Qed.

(** What goes downstream, told from the chunk [c] in which the first
    terminator completes. *)
Lemma run_body (pre : list Buffer) (c : Buffer) (post : list Buffer) (j : nat) :
  let whole := List.concat (pre ++ c :: post) in
  boundary_at whole j = true ->
  (forall k, (k < j)%nat -> boundary_at whole k = false) ->
  (length (List.concat pre) <= j < length (List.concat pre) + length c)%nat ->
  body_of (emitted (snd (run (pre ++ c :: post))))
  = if decide (length (List.concat pre) + length c = S (S j))%nat
    then List.concat post
    else drop (S j) whole.
Proof.
  intros whole Hat Hleft Hin.
  assert (Hwhole : whole = (List.concat pre ++ c) ++ List.concat post).
  { unfold whole. rewrite concat_app. simpl. now rewrite app_assoc. }
  destruct (feed_accumulating pre [] start start_accumulating) as (rt1 & Hf1 & H1).
  simpl in H1.
  destruct H1 as [H1 | (raw & body & _ & (j' & Hj' & _))].
  2:{ apply first_boundary_Some in Hj' as (Hr' & Hb' & _).
      assert (Hw' : boundary_at whole j' = true)
        by (rewrite Hwhole, <- app_assoc, boundary_at_app_l by lia; exact Hb').
      rewrite Hleft in Hw' by lia. discriminate. }
  assert (Hne : c <> []) by (intros ->; simpl in Hin; lia).
  assert (Hfirst : first_boundary (Buf.alloc 4 ++ List.concat pre ++ c)
                     (4 + length (List.concat pre) + length c) 0 = Some (4 + j)%nat).
  { pose proof (first_boundary_alloc (List.concat pre ++ c)) as E.
    rewrite length_app, Nat.add_assoc in E. rewrite E.
    rewrite <- length_app.
    rewrite (leftmost_first (List.concat pre ++ c) j); [reflexivity | |].
    - rewrite <- (boundary_at_app_l _ (List.concat post)), <- Hwhole;
        [assumption | rewrite length_app; lia].
    - intros k Hk.
      rewrite <- (boundary_at_app_l _ (List.concat post)), <- Hwhole;
        [now apply Hleft | rewrite length_app; lia]. }
  destruct (write_accumulating_found _ c rt1 _ H1 Hne Hfirst) as (rt2 & Hw & _ & H2).
  destruct (feed_forwarding post _ _ _ H2) as (rt3 & Hf3 & H3).
  pose proof (end_forwarding _ _ _ H3) as Hend.
  assert (Hrun : run (pre ++ c :: post) = (Normal tt, rt3)).
  { unfold run, JsM.bind. rewrite feed_app, Hf1. cbn [feed]. unfold JsM.bind.
    now rewrite Hw, Hf3. }
  rewrite Hrun. cbn [snd].
  destruct H3 as [_ _ _ _ _ _ (h & bs & _ & Hem & Hcat)].
  rewrite Hem, body_of_trace, Hcat.
  replace (4 + j - 3)%nat with (S j) by lia.
  rewrite length_app.
  repeat case_decide; try lia; try reflexivity.
  all: rewrite Hwhole, (drop_app_le (List.concat pre ++ c)); [reflexivity |].
  all: rewrite length_app; lia.
Qed.

End Chunking.

Ltac fields_in H :=
  cbn [this emitted immediates errored lastBytes headersParsed headerBytes
       headerChunks rawHeaders bodySize curLinePos headers] in H.

Section Counting.

Lemma body_of_app (a b : list Event) : body_of (a ++ b) = body_of a ++ body_of b.
Proof. unfold body_of. now rewrite omap_app, concat_app. Qed.

Lemma concat_some (chunks : list Buffer) (n : Z) :
  0 <= n -> exists raw, Buf.concat chunks n = Some raw.
Proof.
  intros H. unfold Buf.concat.
  destruct (Z.ltb_spec n 0); [lia | eauto].
Qed.

(** A stream between two chunks is accumulating or forwarding, and
    [bodySize] is the number of bytes that went downstream; one more chunk
    keeps it so. *)
Lemma write_counted (c : Buffer) (rt : Runtime) :
  (exists input, Accumulating input rt) \/ (exists raw body, Forwarding raw body rt) ->
  bodySize (this rt) = Z.of_nat (length (body_of (emitted rt))) ->
  exists rt1,
    write c rt = (Normal tt, rt1)
    /\ ((exists input, Accumulating input rt1) \/ (exists raw body, Forwarding raw body rt1))
    /\ bodySize (this rt1) = Z.of_nat (length (body_of (emitted rt1))).
Proof.
  intros Hreach Hcount.
  destruct (decide (c = [])) as [-> | Hne].
  { exists rt. split; [| split; assumption].
    apply write_empty. destruct Hreach as [(? & H) | (? & ? & H)]; apply H. }
  destruct Hreach as [(input & Hacc) | (raw & body & Hfwd)].
  - pose proof Hacc as [He Hi Hem Hp (hc & Hc & Hcat) Hb Hl Hclear].
    destruct (first_boundary (Buf.alloc 4 ++ input ++ c)
                (4 + length input + length c) 0) as [j|] eqn:E.
    + destruct (write_accumulating_found input c rt j Hacc Hne E) as (rt1 & Hw & Hj & H1).
      exists rt1. split; [exact Hw | split; [right; eauto |]].
      rewrite app_assoc in E.
      assert (Hscan : first_boundary (lastBytes (this rt) ++ c)
                        (length (lastBytes (this rt)) + length c) 0
                      = Some (j - length input)%nat).
      { rewrite Hl, window_length, window_scan by assumption. now rewrite E. }
      assert (Hlen : length (lastBytes (this rt)) = 4%nat)
        by (rewrite Hl; apply window_length).
      destruct (concat_some (hc ++ [Buf.slice c 0
                   (Z.of_nat (j - length input) - Z.of_nat (length (lastBytes (this rt))) + 1)])
                  (headerBytes (this rt)
                   + (Z.of_nat (j - length input)
                      - Z.of_nat (length (lastBytes (this rt))) + 1)))
        as (raw & Hraw); [rewrite Hb, Hlen; lia |].
      pose proof (checkHeaders_found rt c hc _ Hp Hc Hscan raw Hraw) as Hfound.
      cbv zeta in Hfound.
      rewrite (write_unparsed c rt _ He Hne Hfound) in Hw. fields_in Hw.
      rewrite Hi, Hem in Hw. unfold drain in Hw. fields_in Hw.
      destruct (Z.of_nat (length c) - 1 >? _) in Hw; cbn in Hw;
        injection Hw as <-; fields; rewrite Hcount, Hem; cbn;
        rewrite ?app_nil_r; lia.
    + destruct (write_accumulating_none input c rt Hacc Hne E) as (rt1 & Hw & H1).
      exists rt1. split; [exact Hw | split; [left; eauto |]].
      rewrite app_assoc in E.
      assert (Hscan : first_boundary (lastBytes (this rt) ++ c)
                        (length (lastBytes (this rt)) + length c) 0 = None).
      { rewrite Hl, window_length, window_scan by assumption. now rewrite E. }
      rewrite (write_unparsed c rt _ He Hne (checkHeaders_accumulate rt c hc Hp Hc Hscan))
        in Hw.
      fields_in Hw. rewrite Hi in Hw. cbn in Hw. injection Hw as <-. fields.
      exact Hcount.
  - destruct (write_forwarding raw body c rt Hfwd) as (rt1 & Hw & H1).
    exists rt1. split; [exact Hw | split; [right; eauto |]].
    destruct Hfwd as [He Hi Hp _ _ _ _].
    unfold write in Hw. rewrite He in Hw.
    unfold _transform in Hw. rewrite (nonempty_length c Hne) in Hw.
    unfold JsM.bind at 1 2 in Hw. unfold JsM.try in Hw.
    rewrite (checkHeaders_parsed rt c Hp) in Hw.
    cbn in Hw. rewrite Hi in Hw. cbn in Hw. injection Hw as <-. fields.
    rewrite body_of_app, length_app, Hcount. cbn. rewrite app_nil_r. lia.
Qed.

Lemma feed_counted (chunks : list Buffer) :
  forall rt : Runtime,
    (exists input, Accumulating input rt) \/ (exists raw body, Forwarding raw body rt) ->
    bodySize (this rt) = Z.of_nat (length (body_of (emitted rt))) ->
    exists rt1,
      feed chunks rt = (Normal tt, rt1)
      /\ ((exists input, Accumulating input rt1)
          \/ (exists raw body, Forwarding raw body rt1))
      /\ bodySize (this rt1) = Z.of_nat (length (body_of (emitted rt1))).
Proof.
  induction chunks as [|c cs IH]; intros rt Hreach Hcount.
  - exists rt. auto.
  - destruct (write_counted c rt Hreach Hcount) as (rt1 & Hw & Hreach1 & Hcount1).
    destruct (IH rt1 Hreach1 Hcount1) as (rt2 & Hf & H2).
    exists rt2. split; [| exact H2].
    cbn [feed]. unfold JsM.bind. now rewrite Hw.
Qed.

(** The end of the input leaves [bodySize] as it is. *)
Lemma end_bodySize (rt : Runtime) :
  bodySize (this (snd (end_ rt))) = bodySize (this rt).
Proof.
  unfold end_. destruct (errored rt); [reflexivity |].
  unfold _flush, JsM.bind, JsM.getThis.
  destruct (headerChunks (this rt)) as [hc|]; [| reflexivity].
  cbn -[Buf.concat parseHeaders Buf.from].
  destruct (Buf.concat _ _) as [raw|]; [| reflexivity].
  cbn -[Buf.concat parseHeaders Buf.from].
  destruct (parseHeaders raw) as [h|]; reflexivity.
Qed.

(** Empty chunks change nothing. *)
Lemma feed_nonempty (chunks : list Buffer) :
  forall rt : Runtime,
    (exists input, Accumulating input rt) \/ (exists raw body, Forwarding raw body rt) ->
    feed chunks rt
    = feed (List.filter (fun c => negb (Nat.eqb (length c) 0)) chunks) rt.
Proof.
  induction chunks as [|c cs IH]; intros rt Hreach; [reflexivity |].
  cbn [List.filter].
  destruct c as [|b c].
  - cbn [length Nat.eqb negb feed]. unfold JsM.bind.
    rewrite write_empty; [now apply IH |].
    destruct Hreach as [(? & H) | (? & ? & H)]; apply H.
  - cbn [length Nat.eqb negb feed]. unfold JsM.bind.
    assert (Hstep : exists rt1,
               write (b :: c) rt = (Normal tt, rt1)
               /\ ((exists input, Accumulating input rt1)
                   \/ (exists raw body, Forwarding raw body rt1))).
    { destruct Hreach as [(input & Hacc) | (raw & body & Hfwd)].
      - destruct (first_boundary (Buf.alloc 4 ++ input ++ b :: c)
                    (4 + length input + length (b :: c)) 0) as [j|] eqn:E.
        + destruct (write_accumulating_found input (b :: c) rt j Hacc ltac:(discriminate) E)
            as (rt1 & Hw & _ & H1). eauto 6.
        + destruct (write_accumulating_none input (b :: c) rt Hacc ltac:(discriminate) E)
            as (rt1 & Hw & H1). eauto 6.
      - destruct (write_forwarding raw body (b :: c) rt Hfwd) as (rt1 & Hw & H1). eauto 6. }
    destruct Hstep as (rt1 & Hw & Hreach1). rewrite Hw. now apply IH.
Qed.

End Counting.

Section ParserFacts.

Lemma toString_app (a b : Buffer) :
  Buf.toString (a ++ b) = (Buf.toString a ++ Buf.toString b)%string.
Proof.
  unfold Buf.toString, string_of_list_byte.
  induction a as [|x a IH]; simpl; [reflexivity | now rewrite IH].
Qed.

Lemma toString_from (s : string) : Buf.toString (Buf.from s) = s.
Proof. apply string_of_list_byte_of_string. Qed.

Lemma replace_breaks_only (t : string) :
  Forall (fun c => Text.is_break c = true) (list_ascii_of_string t) ->
  Text.replace_trailing_breaks t = EmptyString.
Proof.
  induction t as [|c t IH]; simpl; intros H; [reflexivity |].
  inversion H as [|? ? Hc Ht]; subst. now rewrite (IH Ht), Hc.
Qed.

(** Line breaks at the end are cut off, however many. *)
Lemma replace_breaks_app (s t : string) :
  Forall (fun c => Text.is_break c = true) (list_ascii_of_string t) ->
  Text.replace_trailing_breaks (s ++ t) = Text.replace_trailing_breaks s.
Proof.
  intros H. induction s as [|c s IH]; simpl.
  - rewrite (replace_breaks_only t H). reflexivity.
  - now rewrite IH.
Qed.

Lemma breaks_toString (t : Buffer) :
  Forall (fun b => b = x0d \/ b = x0a) t ->
  Forall (fun c => Text.is_break c = true) (list_ascii_of_string (Buf.toString t)).
Proof.
  unfold Buf.toString, string_of_list_byte.
  induction 1 as [|b t [-> | ->] _ IH]; simpl; constructor; auto.
Qed.

Lemma lines_of_breaks (raw t : Buffer) :
  Forall (fun b => b = x0d \/ b = x0a) t -> lines_of (raw ++ t) = lines_of raw.
Proof.
  intros H. unfold lines_of.
  now rewrite toString_app, (replace_breaks_app _ _ (breaks_toString t H)).
Qed.

(** Unfolding loses no text: the logical lines, joined by newlines, are the
    lines joined by newlines. *)
Lemma unfold_from_concat (L : list string) :
  forall cur : string,
    String.concat Text.newline (unfold_from cur L)
    = String.concat Text.newline (cur :: L).
Proof.
  induction L as [|l L IH]; intros cur; [reflexivity |].
  cbn [unfold_from]. destruct (is_folded l).
  - rewrite IH. destruct L as [|x L]; cbn [String.concat]; [reflexivity |].
    now rewrite !append_assoc.
  - destruct (unfold_from_cons l L) as (x & xs & E).
    cbn [String.concat]. rewrite E, <- E, IH. reflexivity.
Qed.

(** Every logical line but the first starts with a line that is not a
    continuation, and there is one for each such line. *)
Lemma unfold_from_tail (L : list string) :
  forall cur : string,
    exists first rest,
      unfold_from cur L = first :: rest
      /\ is_folded first = is_folded cur
      /\ Forall (fun l => is_folded l = false) rest
      /\ length rest = length (List.filter (fun l => negb (is_folded l)) L).
Proof.
  induction L as [|l L IH]; intros cur.
  - exists cur, []. repeat split. constructor.
  - cbn [unfold_from List.filter]. destruct (is_folded l) eqn:E; cbn [negb].
    + destruct (IH (cur ++ Text.newline ++ l)%string) as (first & rest & -> & Hh & Hf & Hn).
      exists first, rest. repeat split; try assumption.
      now rewrite Hh, is_folded_append.
    + destruct (IH l) as (first & rest & -> & Hh & Hf & Hn).
      exists cur, (first :: rest). repeat split.
      * constructor; [congruence | exact Hf].
      * simpl. now rewrite Hn.
Qed.

(** [toLowerCase] and [trim], applied again, change nothing. *)
Lemma lower_lower (c : ascii) : Text.lower (Text.lower c) = Text.lower c.
Proof. destruct c as [[] [] [] [] [] [] [] []]; reflexivity. Qed.

Lemma is_space_lower (c : ascii) : Text.is_space (Text.lower c) = Text.is_space c.
Proof. destruct c as [[] [] [] [] [] [] [] []]; reflexivity. Qed.

Lemma toLowerCase_idem (s : string) :
  Text.toLowerCase (Text.toLowerCase s) = Text.toLowerCase s.
Proof. induction s as [|c s IH]; simpl; [reflexivity | now rewrite lower_lower, IH]. Qed.

Lemma toLowerCase_trimStart (s : string) :
  Text.toLowerCase (Text.trimStart s) = Text.trimStart (Text.toLowerCase s).
Proof.
  induction s as [|c s IH]; simpl; [reflexivity |].
  rewrite is_space_lower. destruct (Text.is_space c); [exact IH | reflexivity].
Qed.

Lemma toLowerCase_trimEnd (s : string) :
  Text.toLowerCase (Text.trimEnd s) = Text.trimEnd (Text.toLowerCase s).
Proof.
  induction s as [|c s IH]; simpl; [reflexivity |].
  rewrite <- IH, is_space_lower.
  destruct (Text.trimEnd s); simpl; [| reflexivity].
  destruct (Text.is_space c); reflexivity.
Qed.

Lemma toLowerCase_trim (s : string) :
  Text.toLowerCase (Text.trim s) = Text.trim (Text.toLowerCase s).
Proof. unfold Text.trim. now rewrite toLowerCase_trimEnd, toLowerCase_trimStart. Qed.

Lemma trimEnd_idem (s : string) : Text.trimEnd (Text.trimEnd s) = Text.trimEnd s.
Proof.
  induction s as [|c s IH]; [reflexivity |].
  cbn [Text.trimEnd].
  destruct (Text.trimEnd s) as [|d r] eqn:E.
  - destruct (Text.is_space c) eqn:Hc; simpl; [reflexivity | now rewrite Hc].
  - change (Text.trimEnd (String c (String d r)))
      with (match Text.trimEnd (String d r) with
            | EmptyString =>
                if Text.is_space c then EmptyString else String c EmptyString
            | String x r0 => String c (String x r0)
            end).
    now rewrite IH.
Qed.

(** What [trimStart] leaves is empty or starts with a character that is not
    white space, and [trimEnd] keeps that character. *)
Lemma trimStart_trimEnd (s : string) :
  Text.trimStart (Text.trimEnd (Text.trimStart s)) = Text.trimEnd (Text.trimStart s).
Proof.
  induction s as [|c s IH]; [reflexivity |].
  cbn [Text.trimStart].
  destruct (Text.is_space c) eqn:Hc; [exact IH |].
  cbn [Text.trimEnd].
  destruct (Text.trimEnd s); rewrite ?Hc; cbn [Text.trimStart]; now rewrite Hc.
Qed.

Lemma trim_idem (s : string) : Text.trim (Text.trim s) = Text.trim s.
Proof. unfold Text.trim. now rewrite trimStart_trimEnd, trimEnd_idem. Qed.

Lemma normalizeHeader_idem (k : string) :
  _normalizeHeader (_normalizeHeader k) = _normalizeHeader k.
Proof.
  unfold _normalizeHeader.
  now rewrite toLowerCase_trim, toLowerCase_idem, trim_idem.
Qed.

Lemma normalizeHeader_lower (k : string) :
  Text.toLowerCase (_normalizeHeader k) = _normalizeHeader k.
Proof. unfold _normalizeHeader. now rewrite toLowerCase_trim, toLowerCase_idem. Qed.

End ParserFacts.

Section WrittenBlocks.

Lemma append_empty (s : string) : (s ++ EmptyString)%string = s.
Proof. induction s as [|c s IH]; simpl; [reflexivity | now rewrite IH]. Qed.

Lemma is_plain_cons (c : ascii) (l : string) :
  is_plain (String c l) = true -> Text.is_break c = false /\ is_plain l = true.
Proof.
  unfold is_plain. simpl. intros H. apply andb_true_iff in H as [Hc Hl].
  split; [now apply negb_true_iff | assumption].
Qed.

(** A plain text in front of a string joins the first of its lines. *)
Lemma split_plain_app (l s hd : string) (tl : list string) :
  is_plain l = true ->
  Text.split_lines s = hd :: tl ->
  Text.split_lines (l ++ s) = (l ++ hd)%string :: tl.
Proof.
  intros Hl Hs. induction l as [|c l IH]; [exact Hs |].
  apply is_plain_cons in Hl as [Hc Hl]. specialize (IH Hl).
  unfold Text.is_break in Hc. apply orb_false_iff in Hc as [Hcr Hlf].
  change (String c l ++ s)%string with (String c (l ++ s)).
  cbn [Text.split_lines]. rewrite Hlf, Hcr. cbn [andb].
  destruct (l ++ s)%string as [|d r] eqn:E.
  - destruct l; [| discriminate]. simpl in E. subst s.
    simpl in Hs. injection Hs as <- <-. reflexivity.
  - rewrite IH. reflexivity.
Qed.

Lemma split_lines_then (sep : string) (L : list string) (tail : string) :
  sep = Text.crlf \/ sep = Text.newline ->
  Forall (fun l => is_plain l = true) L ->
  Text.split_lines (lines_then sep L tail) = L ++ Text.split_lines tail.
Proof.
  intros Hsep HL. induction HL as [|l L Hl _ IH]; [reflexivity |].
  cbn [lines_then fold_right]. fold (lines_then sep L tail).
  assert (Hs : Text.split_lines (sep ++ lines_then sep L tail)
               = EmptyString :: (L ++ Text.split_lines tail)).
  { destruct Hsep as [-> | ->]; simpl; now rewrite IH. }
  rewrite (split_plain_app l _ _ _ Hl Hs), append_empty. reflexivity.
Qed.

Lemma lines_then_app (sep : string) (L : list string) (tail : string) :
  lines_then sep L tail = (lines_then sep L EmptyString ++ tail)%string.
Proof.
  induction L as [|l L IH]; [reflexivity |].
  cbn [lines_then fold_right]. fold (lines_then sep L tail) (lines_then sep L EmptyString).
  now rewrite IH, !append_assoc.
Qed.

Lemma lines_then_snoc (sep : string) (L : list string) (l tail : string) :
  lines_then sep (L ++ [l]) tail
  = (lines_then sep L EmptyString ++ l ++ sep ++ tail)%string.
Proof.
  unfold lines_then at 1. rewrite fold_right_app. cbn [fold_right].
  fold (lines_then sep L (l ++ sep ++ tail)). apply lines_then_app.
Qed.

(** A text that ends with a plain character has nothing to cut off. *)
Lemma replace_breaks_plain (a l : string) :
  l <> EmptyString -> is_plain l = true ->
  Text.replace_trailing_breaks (a ++ l) = (a ++ l)%string.
Proof.
  intros Hne Hl.
  assert (Hbase : Text.replace_trailing_breaks l = l).
  { clear Hne. induction l as [|c l IH]; [reflexivity |].
    apply is_plain_cons in Hl as [Hc Hl]. cbn [Text.replace_trailing_breaks].
    rewrite (IH Hl), Hc. now destruct l. }
  induction a as [|x a IH]; [exact Hbase |].
  change (String x a ++ l)%string with (String x (a ++ l)).
  cbn [Text.replace_trailing_breaks]. rewrite IH.
  destruct (a ++ l)%string eqn:E; [| reflexivity].
  destruct a; [simpl in E; congruence | discriminate].
Qed.

Lemma breaks_sep (sep : string) :
  sep = Text.crlf \/ sep = Text.newline ->
  Forall (fun c => Text.is_break c = true) (list_ascii_of_string (sep ++ sep)).
Proof. intros [-> | ->]; repeat constructor. Qed.

(** Round trip: the lines of a written header block are the lines written,
    with either line break. *)
Lemma lines_of_header_block (sep : string) (L : list string) (l : string) :
  sep = Text.crlf \/ sep = Text.newline ->
  Forall (fun x => is_plain x = true) (L ++ [l]) ->
  l <> EmptyString ->
  lines_of (Buf.from (header_block sep (L ++ [l]))) = L ++ [l].
Proof.
  intros Hsep Hplain Hne.
  apply Forall_app in Hplain as [HL Hl]. inversion Hl as [|? ? Hl' _]; subst.
  unfold lines_of, header_block. rewrite toString_from, lines_then_snoc.
  replace (lines_then sep L EmptyString ++ l ++ sep ++ sep)%string
    with ((lines_then sep L EmptyString ++ l) ++ (sep ++ sep))%string
    by now rewrite !append_assoc.
  rewrite (replace_breaks_app _ _ (breaks_sep sep Hsep)).
  rewrite (replace_breaks_plain _ l Hne Hl').
  rewrite <- lines_then_app, (split_lines_then sep L l Hsep HL).
  f_equal. rewrite <- (append_empty l) at 1.
  now rewrite (split_plain_app l EmptyString EmptyString [] Hl' eq_refl), append_empty.
Qed.

End WrittenBlocks.

Section Terminators.

Lemma boundary_at_lf (v : Buffer) (i : nat) :
  boundary_at v i = true -> v !! i = Some x0a.
Proof.
  unfold boundary_at. intros H.
  assert (Hs : Buf.strictEq (v !! i) x0a = true).
  { apply orb_true_iff in H as [H | H]; repeat (apply andb_true_iff in H as [H ?]);
      assumption. }
  destruct (v !! i) as [b|]; [| discriminate]. simpl in Hs.
  now rewrite (byte_dec_bl _ _ Hs).
Qed.

(** No terminator completes in [v], and none where a byte that is not LF is
    put behind it. *)
Lemma clean_snoc (v : Buffer) (b : byte) :
  (forall i, boundary_at v i = false) -> b <> x0a ->
  forall i, boundary_at (v ++ [b]) i = false.
Proof.
  intros Hv Hb i.
  destruct (lt_eq_lt_dec i (length v)) as [[Hi | ->] | Hi].
  - rewrite boundary_at_app_l by assumption. apply Hv.
  - destruct (boundary_at _ _) eqn:E; [| reflexivity].
    apply boundary_at_lf in E. rewrite list_lookup_middle in E by reflexivity.
    congruence.
  - destruct (boundary_at _ i) eqn:E; [| reflexivity].
    apply boundary_at_lt in E. rewrite length_app in E. simpl in E. lia.
Qed.

Lemma clean_app (t : Buffer) :
  forall v : Buffer,
    (forall i, boundary_at v i = false) ->
    Forall (fun b => b <> x0a) t ->
    forall i, boundary_at (v ++ t) i = false.
Proof.
  induction t as [|b t IH]; intros v Hv Ht.
  - now rewrite app_nil_r.
  - inversion Ht as [|? ? Hb Ht']; subst.
    replace (v ++ b :: t) with ((v ++ [b]) ++ t) by now rewrite <- app_assoc.
    apply IH; [now apply clean_snoc | assumption].
Qed.

(** A LF behind a byte that is neither CR nor LF completes nothing, and
    neither does CR LF behind a byte that is not LF. *)
Lemma clean_snoc_lf (u : Buffer) (x : byte) :
  (forall i, boundary_at (u ++ [x]) i = false) -> x <> x0a -> x <> x0d ->
  forall i, boundary_at ((u ++ [x]) ++ [x0a]) i = false.
Proof.
  intros Hv Hlf Hcr i.
  destruct (lt_eq_lt_dec i (length (u ++ [x]))) as [[Hi | ->] | Hi].
  - rewrite boundary_at_app_l by assumption. apply Hv.
  - unfold boundary_at. rewrite length_app. simpl.
    replace (length u + 1 - 1)%nat with (length u) by lia.
    rewrite (lookup_app_l (u ++ [x])) by (rewrite length_app; simpl; lia).
    rewrite (list_lookup_middle u [] x) by reflexivity. simpl.
    destruct (Byte.eqb x x0a) eqn:E1; [apply byte_dec_bl in E1; congruence |].
    destruct (Byte.eqb x x0d) eqn:E2; [apply byte_dec_bl in E2; congruence |].
    now rewrite !andb_false_r.
  - destruct (boundary_at _ i) eqn:E; [| reflexivity].
    apply boundary_at_lt in E. rewrite !length_app in *. simpl in *. lia.
Qed.

Lemma clean_snoc_crlf (u : Buffer) (x : byte) :
  (forall i, boundary_at (u ++ [x]) i = false) -> x <> x0a ->
  forall i, boundary_at ((u ++ [x]) ++ [x0d; x0a]) i = false.
Proof.
  intros Hv Hlf i.
  assert (Hcr : forall k, boundary_at ((u ++ [x]) ++ [x0d]) k = false)
    by (apply clean_snoc; [assumption | discriminate]).
  replace ((u ++ [x]) ++ [x0d; x0a]) with (((u ++ [x]) ++ [x0d]) ++ [x0a])
    by now rewrite <- !app_assoc.
  destruct (lt_eq_lt_dec i (length ((u ++ [x]) ++ [x0d]))) as [[Hi | ->] | Hi].
  - rewrite boundary_at_app_l by assumption. apply Hcr.
  - unfold boundary_at. rewrite !length_app. simpl.
    replace (length u + 1 + 1 - 1)%nat with (length u + 1)%nat by lia.
    replace (length u + 1 + 1 - 2)%nat with (length u + 0)%nat by lia.
    rewrite <- !app_assoc. simpl.
    rewrite (lookup_app_r u _ (length u + 1 + 1)), (lookup_app_r u _ (length u + 1)),
      (lookup_app_r u _ (length u + 0)) by lia.
    replace (length u + 1 + 1 - length u)%nat with 2%nat by lia.
    replace (length u + 1 - length u)%nat with 1%nat by lia.
    replace (length u + 0 - length u)%nat with 0%nat by lia.
    simpl.
    destruct (Byte.eqb x x0a) eqn:E1; [apply byte_dec_bl in E1; congruence |].
    now rewrite !andb_false_r.
  - destruct (boundary_at _ i) eqn:E; [| reflexivity].
    apply boundary_at_lt in E. rewrite !length_app in *. simpl in *. lia.
Qed.

(** CR LF CR LF behind header bytes [H] completes a terminator at its last
    byte, and LF LF does. *)
Lemma boundary_crlf_crlf (H rest : Buffer) :
  boundary_at (H ++ [x0d; x0a; x0d; x0a] ++ rest) (length H + 3) = true.
Proof.
  unfold boundary_at.
  replace (length H + 3 - 1)%nat with (length H + 2)%nat by lia.
  replace (length H + 3 - 2)%nat with (length H + 1)%nat by lia.
  rewrite (lookup_app_r H _ (length H + 3)), (lookup_app_r H _ (length H + 2)),
    (lookup_app_r H _ (length H + 1)) by lia.
  replace (length H + 3 - length H)%nat with 3%nat by lia.
  replace (length H + 2 - length H)%nat with 2%nat by lia.
  replace (length H + 1 - length H)%nat with 1%nat by lia.
  replace (2 <=? length H + 3)%nat with true by (symmetry; apply Nat.leb_le; lia).
  simpl. rewrite ?orb_true_r. reflexivity.
Qed.

Lemma boundary_lf_lf (H rest : Buffer) :
  boundary_at (H ++ [x0a; x0a] ++ rest) (length H + 1) = true.
Proof.
  unfold boundary_at.
  replace (length H + 1 - 1)%nat with (length H + 0)%nat by lia.
  rewrite (lookup_app_r H _ (length H + 1)), (lookup_app_r H _ (length H + 0)) by lia.
  replace (length H + 1 - length H)%nat with 1%nat by lia.
  replace (length H + 0 - length H)%nat with 0%nat by lia.
  replace (1 <=? length H + 1)%nat with true by (symmetry; apply Nat.leb_le; lia).
  reflexivity.
Qed.

End Terminators.

Section WrittenMessages.

Lemma from_app (a b : string) : Buf.from (a ++ b) = Buf.from a ++ Buf.from b.
Proof.
  unfold Buf.from, list_byte_of_string.
  induction a as [|c a IH]; simpl; [reflexivity | now rewrite IH].
Qed.

Lemma plain_bytes (l : string) :
  is_plain l = true -> Forall (fun b => b <> x0a /\ b <> x0d) (Buf.from l).
Proof.
  unfold Buf.from, list_byte_of_string.
  induction l as [|c l IH]; intros H; simpl; [constructor |].
  apply is_plain_cons in H as [Hc Hl]. constructor; [| now apply IH].
  unfold Text.is_break in Hc. apply orb_false_iff in Hc as [Hcr Hlf].
  split; intros E; apply (f_equal ascii_of_byte) in E;
    rewrite ascii_of_byte_of_ascii in E; subst c; discriminate.
Qed.

Lemma clean_nil (i : nat) : boundary_at [] i = false.
Proof.
  destruct (boundary_at [] i) eqn:E; [| reflexivity].
  apply boundary_at_lt in E. simpl in E. lia.
Qed.

(** Lines that are not empty, each ended by its line break, hold no
    terminator. *)
Lemma clean_lines (sep : string) (L : list string) :
  sep = Text.crlf \/ sep = Text.newline ->
  Forall (fun l => is_plain l = true /\ l <> EmptyString) L ->
  forall i, boundary_at (Buf.from (lines_then sep L EmptyString)) i = false.
Proof.
  intros Hsep. induction L as [|l L IH] using rev_ind; intros HL.
  - exact clean_nil.
  - apply Forall_app in HL as [HL Hl]. inversion Hl as [|? ? [Hp Hne] _]; subst.
    specialize (IH HL).
    rewrite lines_then_snoc, append_empty, !from_app.
    pose proof (plain_bytes l Hp) as Hb.
    destruct (snoc_case (Buf.from l)) as [E | (u & x & E)].
    { destruct l; [congruence | discriminate]. }
    rewrite E in *. apply Forall_app in Hb as [Hu Hx].
    inversion Hx as [|? ? [Hx1 Hx2] _]; subst.
    assert (Hclean : forall i,
               boundary_at ((Buf.from (lines_then sep L EmptyString) ++ u) ++ [x]) i = false).
    { rewrite <- app_assoc. apply clean_app; [exact IH |].
      apply Forall_app. split; [| now constructor].
      eapply Forall_impl; [exact Hu | now intros ? []]. }
    rewrite (app_assoc _ (u ++ [x])), (app_assoc _ u [x]).
    destruct Hsep as [-> | ->].
    + now apply clean_snoc_crlf.
    + now apply clean_snoc_lf.
Qed.

Lemma clean_prefix (v w : Buffer) :
  (forall i, boundary_at (v ++ w) i = false) -> forall i, boundary_at v i = false.
Proof.
  intros H i. destruct (boundary_at v i) eqn:E; [| reflexivity].
  pose proof (boundary_at_lt _ _ E) as Hlt.
  rewrite <- (boundary_at_app_l v w), H in E by lia. discriminate.
Qed.

(** Header bytes [H] followed by CR LF CR LF, or by LF LF, and a body: the
    headers end behind that terminator when none completes before its last
    byte. *)
Lemma run_terminated (H term body : Buffer) (chunks : list Buffer) :
  term = [x0d; x0a; x0d; x0a] \/ term = [x0a; x0a] ->
  List.concat chunks = H ++ term ++ body ->
  (forall i, boundary_at (H ++ removelast term) i = false) ->
  exists rt h bs,
    run chunks = (Normal tt, rt)
    /\ emitted rt = EvHeaders h :: (EvData <$> bs)
    /\ rawHeaders (this rt) = Some (H ++ term)
    /\ headerBytes (this rt) = Z.of_nat (length H + length term)
    /\ parseHeaders (H ++ term) = Some h.
Proof.
  intros Hterm Hwhole Hclean.
  assert (Hj : boundary_at (List.concat chunks) (length H + length term - 1) = true
               /\ forall k, (k < length H + length term - 1)%nat ->
                            boundary_at (List.concat chunks) k = false).
  { rewrite Hwhole. destruct Hterm as [-> | ->]; simpl length.
    - replace (length H + 4 - 1)%nat with (length H + 3)%nat by lia.
      split; [apply boundary_crlf_crlf |]. intros k Hk.
      change (H ++ [x0d; x0a; x0d; x0a] ++ body)
        with (H ++ removelast [x0d; x0a; x0d; x0a] ++ [x0a] ++ body).
      rewrite app_assoc, boundary_at_app_l; [apply Hclean |].
      rewrite length_app. simpl. lia.
    - replace (length H + 2 - 1)%nat with (length H + 1)%nat by lia.
      split; [apply boundary_lf_lf |]. intros k Hk.
      change (H ++ [x0a; x0a] ++ body)
        with (H ++ removelast [x0a; x0a] ++ [x0a] ++ body).
      rewrite app_assoc, boundary_at_app_l; [apply Hclean |].
      rewrite length_app. simpl. lia. }
  destruct Hj as [Hat Hleft].
  destruct (run_boundary chunks _ Hat Hleft) as (rt & h & bs & Hr & He & Hraw & Hb & Hp).
  assert (Htake : take (S (length H + length term - 1)) (List.concat chunks) = H ++ term).
  { rewrite Hwhole, app_assoc. apply take_app_length'.
    rewrite length_app. destruct Hterm as [-> | ->]; simpl; lia. }
  rewrite Htake in Hraw, Hp.
  exists rt, h, bs. repeat split; try assumption.
  rewrite Hb. destruct Hterm as [-> | ->]; simpl; lia.
Qed.

End WrittenMessages.

Section SevenBit.

Lemma low_char_of_byte (b : byte) : low_char (ascii_of_byte b) = low_byte b.
Proof. destruct b; reflexivity. Qed.

Lemma low_char_lower (c : ascii) : low_char (Text.lower c) = low_char c.
Proof. destruct c as [[] [] [] [] [] [] [] []]; reflexivity. Qed.

Lemma is_7bit_toString (raw : Buffer) :
  is_7bit raw = true -> is_7bit_text (Buf.toString raw) = true.
Proof.
  unfold Buf.toString, string_of_list_byte.
  induction raw as [|b raw IH]; simpl; intros H; [reflexivity |].
  apply andb_true_iff in H as [Hb Hr].
  now rewrite low_char_of_byte, Hb, IH.
Qed.

Lemma is_7bit_text_app (a b : string) :
  is_7bit_text (a ++ b) = (is_7bit_text a && is_7bit_text b)%bool.
Proof.
  induction a as [|c a IH]; simpl; [reflexivity |].
  now rewrite IH, andb_assoc.
Qed.

Lemma is_7bit_replace (s : string) :
  is_7bit_text s = true -> is_7bit_text (Text.replace_trailing_breaks s) = true.
Proof.
  induction s as [|c s IH]; simpl; intros H; [reflexivity |].
  apply andb_true_iff in H as [Hc Hs]. specialize (IH Hs).
  destruct (Text.replace_trailing_breaks s).
  - destruct (Text.is_break c); simpl; [reflexivity | now rewrite Hc].
  - cbn [is_7bit_text] in *. now rewrite Hc, IH.
Qed.

Lemma is_7bit_split (n : nat) :
  forall s : string,
    (String.length s <= n)%nat ->
    is_7bit_text s = true ->
    Forall (fun l => is_7bit_text l = true) (Text.split_lines s).
Proof.
  induction n as [|n IH]; intros s Hn H.
  - destruct s; [| simpl in Hn; lia]. repeat constructor.
  - destruct s as [|c rest]; [repeat constructor |].
    cbn [is_7bit_text] in H. apply andb_true_iff in H as [Hc Hrest].
    simpl in Hn.
    assert (IHrest : Forall (fun l => is_7bit_text l = true) (Text.split_lines rest))
      by (apply IH; [lia | assumption]).
    cbn [Text.split_lines].
    destruct (Ascii.eqb c Text.LF); [constructor; [reflexivity | assumption] |].
    destruct rest as [|d rest'].
    + constructor; [| constructor]. simpl. now rewrite Hc.
    + destruct (Ascii.eqb c Text.CR && Ascii.eqb d Text.LF)%bool.
      * constructor; [reflexivity |].
        cbn [is_7bit_text] in Hrest. apply andb_true_iff in Hrest as [_ Hrest'].
        apply IH; [simpl in Hn; lia | assumption].
      * destruct (Text.split_lines (String d rest')) as [|l ls].
        -- constructor; [| constructor]. simpl. now rewrite Hc.
        -- inversion IHrest as [|? ? Hl Hls]; subst.
           constructor; [| assumption]. cbn [is_7bit_text]. now rewrite Hc, Hl.
Qed.

Lemma is_7bit_unfold_from (L : list string) :
  forall cur : string,
    is_7bit_text cur = true ->
    Forall (fun l => is_7bit_text l = true) L ->
    Forall (fun l => is_7bit_text l = true) (unfold_from cur L).
Proof.
  induction L as [|l L IH]; intros cur Hcur HL; cbn [unfold_from].
  - constructor; [assumption | constructor].
  - inversion HL as [|? ? Hl HL']; subst.
    destruct (is_folded l).
    + apply IH; [| assumption].
      now rewrite !is_7bit_text_app, Hcur, Hl.
    + constructor; [assumption | now apply IH].
Qed.

Lemma is_7bit_substring (s : string) :
  forall n m : nat,
    is_7bit_text s = true -> is_7bit_text (String.substring n m s) = true.
Proof.
  induction s as [|c s IH]; intros n m H.
  - destruct n, m; reflexivity.
  - cbn [is_7bit_text] in H. apply andb_true_iff in H as [Hc Hs].
    destruct n as [|n]; simpl.
    + destruct m as [|m]; [reflexivity |].
      cbn [is_7bit_text]. now rewrite Hc, IH.
    + now apply IH.
Qed.

Lemma is_7bit_substr (s : string) (start len : Z) :
  is_7bit_text s = true -> is_7bit_text (Text.substr s start len) = true.
Proof.
  intros H. unfold Text.substr.
  destruct (len <=? 0); [reflexivity | now apply is_7bit_substring].
Qed.

Lemma is_7bit_toLowerCase (s : string) :
  is_7bit_text (Text.toLowerCase s) = is_7bit_text s.
Proof.
  induction s as [|c s IH]; simpl; [reflexivity |].
  now rewrite low_char_lower, IH.
Qed.

Lemma is_7bit_trimStart (s : string) :
  is_7bit_text s = true -> is_7bit_text (Text.trimStart s) = true.
Proof.
  induction s as [|c s IH]; intros H; [reflexivity |].
  cbn [Text.trimStart]. destruct (Text.is_space c); [| assumption].
  cbn [is_7bit_text] in H. apply andb_true_iff in H as [_ Hs]. now apply IH.
Qed.

Lemma is_7bit_trimEnd (s : string) :
  is_7bit_text s = true -> is_7bit_text (Text.trimEnd s) = true.
Proof.
  induction s as [|c s IH]; simpl; intros H; [reflexivity |].
  apply andb_true_iff in H as [Hc Hs]. specialize (IH Hs).
  destruct (Text.trimEnd s).
  - destruct (Text.is_space c); simpl; [reflexivity | now rewrite Hc].
  - cbn [is_7bit_text] in *. now rewrite Hc, IH.
Qed.

(** The key made of a seven-bit line is seven-bit. *)
Lemma is_7bit_key (l : string) :
  is_7bit_text l = true -> is_7bit_text (key (entry_of l)) = true.
Proof.
  intros H. cbn [key entry_of]. unfold _normalizeHeader, Text.trim.
  apply is_7bit_trimEnd, is_7bit_trimStart.
  rewrite is_7bit_toLowerCase. now apply is_7bit_substr.
Qed.

(** The logical lines of a seven-bit buffer are seven-bit. *)
Lemma is_7bit_lines (raw : Buffer) :
  is_7bit raw = true ->
  Forall (fun l => is_7bit_text l = true) (unfold_lines (lines_of raw)).
Proof.
  intros H.
  assert (HL : Forall (fun l => is_7bit_text l = true) (lines_of raw)).
  { unfold lines_of. eapply is_7bit_split; [reflexivity |].
    now apply is_7bit_replace, is_7bit_toString. }
  destruct (lines_of raw) as [|l L]; [constructor |].
  inversion HL; subst. now apply is_7bit_unfold_from.
Qed.

End SevenBit.

(** * Further results *)

Section Further.

(** X1.  Where the headers end.  However the input is cut into chunks, when
    its first terminator completes at byte [j], the raw header bytes are the
    first [j + 1] bytes of the input, exactly that many are counted, and the
    one headers event, first in the trace, carries what [parseHeaders] makes
    of them. *)
Theorem raw_headers_are_input_prefix (chunks : list Buffer) (j : nat) :
  boundary_at (List.concat chunks) j = true ->
  (forall k, (k < j)%nat -> boundary_at (List.concat chunks) k = false) ->
  exists rt h bs,
    run chunks = (Normal tt, rt)
    /\ emitted rt = EvHeaders h :: (EvData <$> bs)
    /\ rawHeaders (this rt) = Some (take (S j) (List.concat chunks))
    /\ headerBytes (this rt) = Z.of_nat (S j)
    /\ parseHeaders (take (S j) (List.concat chunks)) = Some h.
Proof. intros Hat Hleft. exact (run_boundary chunks j Hat Hleft). Qed.

Lemma raw_headers_are_input_prefix_witness :
  exists rt h bs,
    run [Sample.cross1; Sample.cross2] = (Normal tt, rt)
    /\ emitted rt = EvHeaders h :: (EvData <$> bs)
    /\ rawHeaders (this rt)
       = Some (take 13 (List.concat [Sample.cross1; Sample.cross2]))
    /\ headerBytes (this rt) = Z.of_nat 13
    /\ parseHeaders (take 13 (List.concat [Sample.cross1; Sample.cross2])) = Some h.
Proof.
  apply (raw_headers_are_input_prefix [Sample.cross1; Sample.cross2] 12).
  - reflexivity.
  - intros k Hk. do 12 (destruct k as [|k]; [reflexivity |]). lia.
Defined.

(** X2.  The header side does not depend on the chunking: fed in any chunks
    or as one chunk, an input leaves the same raw header bytes and the same
    header count, and announces the same header block. *)
Theorem header_side_independent_of_chunking (chunks : list Buffer) :
  let rt1 := snd (run chunks) in
  let rt2 := snd (run [List.concat chunks]) in
  headers_of (emitted rt1) = headers_of (emitted rt2)
  /\ rawHeaders (this rt1) = rawHeaders (this rt2)
  /\ headerBytes (this rt1) = headerBytes (this rt2).
Proof.
  split; [apply headers_fragmentation |].
  destruct (run_outcome chunks) as (rt1 & h1 & bs1 & -> & E1 & _ & H1).
  destruct (run_outcome [List.concat chunks]) as (rt2 & h2 & bs2 & -> & E2 & _ & H2).
  cbv zeta in H1, H2. simpl in H2. rewrite app_nil_r in H2. cbn [snd].
  destruct H1 as [(Hn1 & _ & _ & Hr1 & Hb1) | (raw1 & (j1 & Hj1 & -> & _) & _ & Hr1 & Hb1)];
    destruct H2 as [(Hn2 & _ & _ & Hr2 & Hb2) | (raw2 & (j2 & Hj2 & -> & _) & _ & Hr2 & Hb2)];
    try congruence.
  - rewrite Hr1, Hr2, Hb1, Hb2. auto.
  - rewrite Hr1, Hr2, Hb1, Hb2. replace j2 with j1 by congruence. auto.
Qed.

(** X3.  What goes downstream.  Let the first terminator of the input
    complete at byte [j], inside the chunk [c] that follows the chunks [pre]
    and is followed by the chunks [post].  The body output is everything
    behind byte [j], in order and unchanged, later terminators included;
    only when [c] ends exactly one byte behind byte [j] is that byte left
    out, and the body output is the later chunks alone. *)
Theorem body_after_first_terminator
  (pre : list Buffer) (c : Buffer) (post : list Buffer) (j : nat) :
  let whole := List.concat (pre ++ c :: post) in
  boundary_at whole j = true ->
  (forall k, (k < j)%nat -> boundary_at whole k = false) ->
  (length (List.concat pre) <= j < length (List.concat pre) + length c)%nat ->
  body_of (emitted (snd (run (pre ++ c :: post))))
  = if decide (length (List.concat pre) + length c = S (S j))%nat
    then List.concat post
    else drop (S j) whole.
Proof. exact (run_body pre c post j). Qed.

Lemma body_after_first_terminator_witness :
  body_of (emitted (snd (run ([Sample.cross1] ++ Sample.cross2 :: [Sample.mixed]))))
  = if decide (length (List.concat [Sample.cross1]) + length Sample.cross2 = 14)%nat
    then List.concat [Sample.mixed]
    else drop 13 (List.concat ([Sample.cross1] ++ Sample.cross2 :: [Sample.mixed])).
Proof.
  apply (body_after_first_terminator [Sample.cross1] Sample.cross2 [Sample.mixed] 12).
  - reflexivity.
  - intros k Hk. do 12 (destruct k as [|k]; [reflexivity |]). lia.
  - simpl. lia.
Defined.

(** X4.  Header and body partition the input.  With the first terminator
    completing at byte [j] inside chunk [c], and [c] not ending exactly one
    byte behind it, the raw header bytes followed by the body output are the
    input, byte for byte, and the header count plus the body length is the
    input length. *)
Theorem header_and_body_partition_input
  (pre : list Buffer) (c : Buffer) (post : list Buffer) (j : nat) :
  let whole := List.concat (pre ++ c :: post) in
  let rt := snd (run (pre ++ c :: post)) in
  boundary_at whole j = true ->
  (forall k, (k < j)%nat -> boundary_at whole k = false) ->
  (length (List.concat pre) <= j < length (List.concat pre) + length c)%nat ->
  (length (List.concat pre) + length c <> S (S j))%nat ->
  exists raw,
    rawHeaders (this rt) = Some raw
    /\ raw ++ body_of (emitted rt) = whole
    /\ headerBytes (this rt) + Z.of_nat (length (body_of (emitted rt)))
       = Z.of_nat (length whole).
Proof.
  intros whole rt Hat Hleft Hin Hrest.
  pose proof (run_body pre c post j Hat Hleft Hin) as Hbody.
  destruct (run_boundary (pre ++ c :: post) j Hat Hleft)
    as (rt' & h & bs & Hr & _ & Hraw & Hb & _).
  fold whole in Hbody, Hraw. unfold rt. rewrite Hr in *. cbn [snd] in *.
  exists (take (S j) whole). rewrite Hbody, Hb.
  case_decide; [lia |].
  split; [exact Hraw |]. split; [apply take_drop |].
  rewrite length_drop. apply boundary_at_lt in Hat. lia.
Qed.

Lemma header_and_body_partition_input_witness :
  let whole := List.concat ([Sample.cross1] ++ Sample.cross2 :: [Sample.mixed]) in
  let rt := snd (run ([Sample.cross1] ++ Sample.cross2 :: [Sample.mixed])) in
  exists raw,
    rawHeaders (this rt) = Some raw
    /\ raw ++ body_of (emitted rt) = whole
    /\ headerBytes (this rt) + Z.of_nat (length (body_of (emitted rt)))
       = Z.of_nat (length whole).
Proof.
  apply (header_and_body_partition_input [Sample.cross1] Sample.cross2 [Sample.mixed] 12).
  - reflexivity.
  - intros k Hk. do 12 (destruct k as [|k]; [reflexivity |]). lia.
  - simpl. lia.
  - simpl. lia.
Defined.

(** X5.  Nothing is observed while accumulating.  After chunks that hold no
    terminator, and before the input ends, no event has been emitted and
    nothing is queued; every byte written is in the header chunks and
    counted, and the window holds the last four bytes written (over zero
    bytes at the start). *)
Theorem nothing_observed_while_accumulating (chunks : list Buffer) :
  (forall i, boundary_at (List.concat chunks) i = false) ->
  exists rt hc,
    feed chunks start = (Normal tt, rt)
    /\ emitted rt = []
    /\ immediates rt = []
    /\ errored rt = false
    /\ headersParsed (this rt) = false
    /\ headerChunks (this rt) = Some hc
    /\ List.concat hc = List.concat chunks
    /\ headerBytes (this rt) = Z.of_nat (length (List.concat chunks))
    /\ lastBytes (this rt) = last_n 4 (Buf.alloc 4 ++ List.concat chunks).
Proof.
  intros Hclear.
  destruct (feed_accumulating chunks [] start start_accumulating) as (rt & Hf & H).
  simpl in H.
  destruct H as [[He Hi Hem Hp (hc & Hc & Hcat) Hb Hl _] | (raw & body & _ & (j & Hj & _))].
  - exists rt, hc. repeat split; assumption.
  - apply first_boundary_Some in Hj as (_ & Hj & _). rewrite Hclear in Hj. discriminate.
Qed.

Lemma nothing_observed_while_accumulating_witness :
  exists rt hc,
    feed [Sample.cross1] start = (Normal tt, rt)
    /\ emitted rt = []
    /\ immediates rt = []
    /\ errored rt = false
    /\ headersParsed (this rt) = false
    /\ headerChunks (this rt) = Some hc
    /\ List.concat hc = List.concat [Sample.cross1]
    /\ headerBytes (this rt) = Z.of_nat (length (List.concat [Sample.cross1]))
    /\ lastBytes (this rt) = last_n 4 (Buf.alloc 4 ++ List.concat [Sample.cross1]).
Proof.
  apply (nothing_observed_while_accumulating [Sample.cross1]).
  intros i. do 15 (destruct i as [|i]; [reflexivity |]). reflexivity.
Defined.

(** X6.  Empty chunks are ignored: a stream and the stream without its
    empty chunks end in the same state with the same trace. *)
Theorem empty_chunks_are_ignored (chunks : list Buffer) :
  run chunks = run (List.filter (fun c => negb (Nat.eqb (length c) 0)) chunks).
Proof.
  unfold run, JsM.bind.
  rewrite (feed_nonempty chunks start); [reflexivity |].
  left. exists []. exact start_accumulating.
Qed.

(** X7.  [bodySize].  When the input holds a terminator, [bodySize] at the
    end is the number of body bytes that went downstream.  When it holds
    none, the two bytes CR LF go downstream at the end and are not counted:
    [bodySize] stays zero. *)
Theorem bodySize_counts_forwarded_bytes (chunks : list Buffer) :
  let rt := snd (run chunks) in
  ((exists j, boundary_at (List.concat chunks) j = true) ->
   bodySize (this rt) = Z.of_nat (length (body_of (emitted rt))))
  /\ ((forall i, boundary_at (List.concat chunks) i = false) ->
      bodySize (this rt) = 0 /\ body_of (emitted rt) = [x0d; x0a]).
Proof.
  intros rt.
  destruct (feed_counted chunks start) as (rt1 & Hf & _ & Hcount);
    [left; exists []; exact start_accumulating | reflexivity |].
  destruct (feed_accumulating chunks [] start start_accumulating) as (rt1' & Hf' & H).
  rewrite Hf in Hf'. injection Hf' as <-. simpl in H.
  assert (Hrun : run chunks = end_ rt1) by (unfold run, JsM.bind; now rewrite Hf).
  pose proof (end_bodySize rt1) as Hend.
  unfold rt. rewrite Hrun.
  destruct H as [Hacc | (raw & body & Hfwd & (j & Hj & _))].
  - destruct (end_accumulating _ _ Hacc) as (rt2 & h & He & _ & Hem & _).
    rewrite He in *. cbn [snd] in *.
    destruct Hacc as [_ _ Hem1 _ _ _ _ Hclear]. rewrite Hem1 in Hcount.
    split.
    + intros (j & Hj).
      rewrite <- (boundary_at_alloc (List.concat chunks) j), Hclear in Hj. discriminate.
    + intros _. rewrite Hend, Hcount, Hem. split; reflexivity.
  - rewrite (end_forwarding _ _ _ Hfwd). cbn [snd].
    split; [intros _; exact Hcount |].
    intros Hclear.
    apply first_boundary_Some in Hj as (_ & Hj & _). rewrite Hclear in Hj. discriminate.
Qed.

Lemma bodySize_counts_forwarded_bytes_witness :
  (bodySize (this (snd (run [Sample.cross1; Sample.cross2])))
   = Z.of_nat (length (body_of (emitted (snd (run [Sample.cross1; Sample.cross2]))))))
  /\ (bodySize (this (snd (run [Sample.cross1]))) = 0
      /\ body_of (emitted (snd (run [Sample.cross1]))) = [x0d; x0a]).
Proof.
  split.
  - apply (proj1 (bodySize_counts_forwarded_bytes [Sample.cross1; Sample.cross2])).
    exists 12%nat. reflexivity.
  - apply (proj2 (bodySize_counts_forwarded_bytes [Sample.cross1])).
    intros i. do 15 (destruct i as [|i]; [reflexivity |]). reflexivity.
Defined.

(** X8.  Line breaks at the end of the header buffer do not count: with any
    run of CR and LF bytes behind it, a buffer parses to the same entries. *)
Theorem trailing_line_breaks_ignored (raw t : Buffer) :
  Forall (fun b => b = x0d \/ b = x0a) t ->
  parseHeaders (raw ++ t) = parseHeaders raw.
Proof.
  intros H. now rewrite !parseHeaders_unfold, (lines_of_breaks raw t H).
Qed.

Lemma trailing_line_breaks_ignored_witness :
  parseHeaders (Sample.no_boundary ++ [x0d; x0a; x0a]) = parseHeaders Sample.no_boundary.
Proof.
  apply (trailing_line_breaks_ignored Sample.no_boundary [x0d; x0a; x0a]).
  repeat (constructor; [auto |]). constructor.
Defined.

(** X9.  Folding loses no text: the lines of the entries, joined by
    newlines, are the lines of the header buffer joined by newlines. *)
Theorem folding_loses_no_text (raw : Buffer) :
  exists es,
    parseHeaders raw = Some (Obj <$> es)
    /\ String.concat Text.newline (line <$> es)
       = String.concat Text.newline (lines_of raw).
Proof.
  exists (entry_of <$> unfold_lines (lines_of raw)).
  split; [apply parseHeaders_unfold |].
  rewrite <- list_fmap_compose.
  replace (line ∘ entry_of <$> unfold_lines (lines_of raw))
    with (unfold_lines (lines_of raw))
    by (induction (unfold_lines (lines_of raw)) as [|x xs IH];
        [reflexivity | cbn; now rewrite <- IH]).
  destruct (lines_of raw) as [|l L]; [reflexivity |].
  apply unfold_from_concat.
Qed.

(** X10.  Where entries start.  Every entry but the first starts with a line
    that does not begin with a space or a tab, and there is exactly one entry
    for each such line behind the first line. *)
Theorem entries_start_at_unfolded_lines (raw : Buffer) :
  exists e es,
    parseHeaders raw = Some (Obj e :: (Obj <$> es))
    /\ Forall (fun x => is_folded (line x) = false) es
    /\ length es
       = length (List.filter (fun l => negb (is_folded l)) (tail (lines_of raw))).
Proof.
  rewrite parseHeaders_unfold.
  destruct (lines_of_cons raw) as (l & L & ->). cbn [unfold_lines tail].
  destruct (unfold_from_tail L l) as (first & rest & -> & _ & Hf & Hn).
  exists (entry_of first), (entry_of <$> rest). repeat split.
  - apply Forall_fmap. eapply Forall_impl; [exact Hf |]. intros x Hx. exact Hx.
  - now rewrite length_fmap.
Qed.

(** X11.  Keys are in normal form.  For a header buffer of bytes below
    0x80, where [toString], [toLowerCase] and [trim] are those of the
    source, the key of every entry is again of bytes below 0x80 and is left
    unchanged by [toLowerCase], by [trim], and by [_normalizeHeader]. *)
Theorem keys_are_normalized (raw : Buffer) :
  is_7bit raw = true ->
  exists es,
    parseHeaders raw = Some (Obj <$> es)
    /\ Forall (fun e => is_7bit_text (key e) = true
                        /\ Text.toLowerCase (key e) = key e
                        /\ Text.trim (key e) = key e
                        /\ _normalizeHeader (key e) = key e) es.
Proof.
  intros H7.
  exists (entry_of <$> unfold_lines (lines_of raw)).
  split; [apply parseHeaders_unfold |].
  apply Forall_fmap. eapply Forall_impl; [exact (is_7bit_lines raw H7) |].
  intros l Hl. cbn [compose]. split; [now apply is_7bit_key |].
  cbn [key entry_of]. repeat split.
  - apply normalizeHeader_lower.
  - unfold _normalizeHeader. apply trim_idem.
  - apply normalizeHeader_idem.
Qed.

Lemma keys_are_normalized_witness :
  exists es,
    parseHeaders Sample.folded = Some (Obj <$> es)
    /\ Forall (fun e => is_7bit_text (key e) = true
                        /\ Text.toLowerCase (key e) = key e
                        /\ Text.trim (key e) = key e
                        /\ _normalizeHeader (key e) = key e) es.
Proof. apply (keys_are_normalized Sample.folded). reflexivity. Defined.

(** X12.  Round trip of a written header block.  Lines without CR and LF,
    the last of them not empty, written out with every line ended by CR LF
    and an empty line behind, or the same with bare LF, are read back as
    these lines; both ways of writing parse to the same entries, those of the
    unfolded lines. *)
Theorem written_block_round_trip (L : list string) (l : string) :
  Forall (fun x => is_plain x = true) (L ++ [l]) ->
  l <> EmptyString ->
  lines_of (Buf.from (header_block Text.crlf (L ++ [l]))) = L ++ [l]
  /\ lines_of (Buf.from (header_block Text.newline (L ++ [l]))) = L ++ [l]
  /\ parseHeaders (Buf.from (header_block Text.crlf (L ++ [l])))
     = Some (Obj <$> (entry_of <$> unfold_lines (L ++ [l])))
  /\ parseHeaders (Buf.from (header_block Text.newline (L ++ [l])))
     = Some (Obj <$> (entry_of <$> unfold_lines (L ++ [l]))).
Proof.
  intros Hp Hne.
  pose proof (lines_of_header_block Text.crlf L l (or_introl eq_refl) Hp Hne) as H1.
  pose proof (lines_of_header_block Text.newline L l (or_intror eq_refl) Hp Hne) as H2.
  rewrite !parseHeaders_unfold, H1, H2. auto.
Qed.

Lemma written_block_round_trip_witness :
  lines_of (Buf.from (header_block Text.crlf (Sample.lines_front ++ [Sample.line_last])))
  = Sample.lines_front ++ [Sample.line_last]
  /\ lines_of (Buf.from (header_block Text.newline (Sample.lines_front ++ [Sample.line_last])))
     = Sample.lines_front ++ [Sample.line_last]
  /\ parseHeaders (Buf.from (header_block Text.crlf (Sample.lines_front ++ [Sample.line_last])))
     = Some (Obj <$> (entry_of <$> unfold_lines (Sample.lines_front ++ [Sample.line_last])))
  /\ parseHeaders (Buf.from (header_block Text.newline (Sample.lines_front ++ [Sample.line_last])))
     = Some (Obj <$> (entry_of <$> unfold_lines (Sample.lines_front ++ [Sample.line_last]))).
Proof.
  apply (written_block_round_trip Sample.lines_front Sample.line_last).
  - repeat constructor.
  - discriminate.
Defined.

(** X13.  A written message.  Header lines that are not empty and hold no
    CR or LF, written out with CR LF or with bare LF, an empty line, and any
    body behind: however this is cut into chunks, the raw header bytes are
    the written header block and the headers event carries the entries of
    the unfolded lines. *)
Theorem written_message_headers
  (sep : string) (L : list string) (l : string) (body : Buffer) (chunks : list Buffer) :
  sep = Text.crlf \/ sep = Text.newline ->
  Forall (fun x => is_plain x = true /\ x <> EmptyString) (L ++ [l]) ->
  List.concat chunks = Buf.from (header_block sep (L ++ [l])) ++ body ->
  exists rt bs,
    run chunks = (Normal tt, rt)
    /\ emitted rt
       = EvHeaders (Obj <$> (entry_of <$> unfold_lines (L ++ [l]))) :: (EvData <$> bs)
    /\ rawHeaders (this rt) = Some (Buf.from (header_block sep (L ++ [l]))).
Proof.
  intros Hsep Hlines Hwhole.
  assert (Hplain : Forall (fun x => is_plain x = true) (L ++ [l]))
    by (eapply Forall_impl; [exact Hlines | now intros ? []]).
  assert (Hne : l <> EmptyString).
  { apply Forall_app in Hlines as [_ Hl]. inversion Hl as [|? ? [_ ?] _]. assumption. }
  set (H := Buf.from (lines_then sep L EmptyString ++ l)).
  assert (Hblock : Buf.from (header_block sep (L ++ [l]))
                   = H ++ Buf.from sep ++ Buf.from sep).
  { unfold header_block, H. rewrite lines_then_snoc, <- !from_app, ?append_assoc.
    reflexivity. }
  assert (Hclean : forall i, boundary_at (H ++ Buf.from sep) i = false).
  { pose proof (clean_lines sep (L ++ [l]) Hsep Hlines) as Hc.
    rewrite lines_then_snoc, append_empty in Hc.
    unfold H. rewrite <- from_app, append_assoc. exact Hc. }
  assert (Hrun : exists rt h bs,
             run chunks = (Normal tt, rt)
             /\ emitted rt = EvHeaders h :: (EvData <$> bs)
             /\ rawHeaders (this rt) = Some (H ++ Buf.from sep ++ Buf.from sep)
             /\ parseHeaders (H ++ Buf.from sep ++ Buf.from sep) = Some h).
  { rewrite Hblock, <- !app_assoc in Hwhole.
    destruct Hsep as [-> | ->].
    - destruct (run_terminated H [x0d; x0a; x0d; x0a] body chunks)
        as (rt & h & bs & Hr & He & Hraw & _ & Hp);
        [now left | exact Hwhole | | eauto 8].
      change (removelast [x0d; x0a; x0d; x0a]) with ([x0d; x0a] ++ [x0d]).
      rewrite app_assoc. apply clean_snoc; [exact Hclean | discriminate].
    - destruct (run_terminated H [x0a; x0a] body chunks)
        as (rt & h & bs & Hr & He & Hraw & _ & Hp);
        [now right | exact Hwhole | exact Hclean | eauto 8]. }
  destruct Hrun as (rt & h & bs & Hr & He & Hraw & Hp).
  rewrite <- Hblock in Hraw, Hp.
  rewrite parseHeaders_unfold, (lines_of_header_block sep L l Hsep Hplain Hne) in Hp.
  injection Hp as <-. eauto.
Qed.

Lemma written_message_headers_witness :
  exists rt bs,
    run [Buf.from (header_block Text.crlf (Sample.lines_front ++ [Sample.line_last])) ++ Sample.mixed]
    = (Normal tt, rt)
    /\ emitted rt
       = EvHeaders (Obj <$> (entry_of <$> unfold_lines (Sample.lines_front ++ [Sample.line_last])))
                   :: (EvData <$> bs)
    /\ rawHeaders (this rt)
       = Some (Buf.from (header_block Text.crlf (Sample.lines_front ++ [Sample.line_last]))).
Proof.
  apply (written_message_headers Text.crlf Sample.lines_front Sample.line_last Sample.mixed).
  - now left.
  - repeat constructor; discriminate.
  - reflexivity.
Defined.

(** X14.  A message and its headers alone.  Header bytes followed by
    CR LF CR LF and a body, or by LF LF and a body, in any chunks, announce
    the same header block as the header bytes alone followed by the end of
    the input, provided no terminator completes before the last byte of the
    one that is written. *)
Theorem terminated_like_truncated
  (H term body : Buffer) (chunks : list Buffer) :
  (term = [x0d; x0a; x0d; x0a]
   /\ forall i, boundary_at (H ++ [x0d; x0a; x0d]) i = false)
  \/ (term = [x0a; x0a] /\ forall i, boundary_at (H ++ [x0a]) i = false) ->
  List.concat chunks = H ++ term ++ body ->
  headers_of (emitted (snd (run chunks))) = headers_of (emitted (snd (run [H]))).
Proof.
  intros Hterm Hwhole.
  assert (Hcases : (term = [x0d; x0a; x0d; x0a] \/ term = [x0a; x0a])
                   /\ (forall i, boundary_at (H ++ removelast term) i = false)
                   /\ Forall (fun b => b = x0d \/ b = x0a) term).
  { destruct Hterm as [[-> Hc] | [-> Hc]]; (split; [auto | split; [exact Hc |]]);
      repeat (constructor; [auto |]); constructor. }
  destruct Hcases as (Ht & Hclean & Hbreaks).
  destruct (run_terminated H term body chunks Ht Hwhole Hclean)
    as (rt & h & bs & Hr & He & _ & _ & Hp).
  destruct (run_outcome [H]) as (rt' & h' & bs' & Hr' & He' & _ & H').
  cbv zeta in H'. simpl in H'. rewrite app_nil_r in H'.
  destruct H' as [(_ & Hp' & _) | (raw & (j & Hj & _) & _)].
  - rewrite Hr, Hr'. cbn [snd]. rewrite He, He', !headers_of_trace. f_equal.
    rewrite parseHeaders_unfold, (lines_of_breaks H term Hbreaks) in Hp.
    rewrite parseHeaders_unfold,
      (lines_of_breaks H [x0d; x0a; x0d; x0a]) in Hp'
      by (repeat (constructor; [auto |]); constructor).
    congruence.
  - apply first_boundary_Some in Hj as (_ & Hj & _).
    rewrite (clean_prefix H (removelast term) Hclean) in Hj. discriminate.
Qed.

Lemma terminated_like_truncated_witness :
  headers_of (emitted (snd (run [Sample.no_boundary ++ [x0a]; [x0a] ++ Sample.mixed])))
  = headers_of (emitted (snd (run [Sample.no_boundary]))).
Proof.
  apply (terminated_like_truncated Sample.no_boundary [x0a; x0a] Sample.mixed).
  - right. split; [reflexivity |].
    intros i. do 13 (destruct i as [|i]; [reflexivity |]). reflexivity.
  - reflexivity.
Defined.

(** X15.  The start of the POP3 server calls [done] once.  Disabled, it
    calls [done(null, false)] and nothing else.  Enabled, nothing happens
    before the first event; the first event calls [done], with the error or
    with the server; every later error is only logged and every later
    listening callback closes the server, so [done] is never called again. *)
Theorem startup_calls_done_once :
  (forall events, Pop3.exports false events = [Pop3.DoneDisabled])
  /\ Pop3.exports true [] = []
  /\ (forall e es,
         exists rest,
           Pop3.exports true (e :: es)
           = match e with
             | Pop3.OnError err => Pop3.DoneError err
             | Pop3.OnListening => Pop3.DoneServer
             end :: rest
           /\ rest = map (fun x => match x with
                                   | Pop3.OnError err => Pop3.LogError err
                                   | Pop3.OnListening => Pop3.Close
                                   end) es)
  /\ (forall enabled events,
         length (List.filter Pop3.is_done (Pop3.exports enabled events))
         = if (enabled && Nat.eqb (length events) 0)%bool then 0%nat else 1%nat).
Proof.
  assert (Hlate : forall es,
             Pop3.handle true es
             = map (fun x => match x with
                             | Pop3.OnError err => Pop3.LogError err
                             | Pop3.OnListening => Pop3.Close
                             end) es).
  { induction es as [|[err|] es IH]; simpl; [reflexivity | |]; now rewrite IH. }
  assert (Hnone : forall es, List.filter Pop3.is_done (Pop3.handle true es) = []).
  { intros es. rewrite Hlate. induction es as [|[err|] es IH]; simpl; auto. }
  split; [reflexivity |]. split; [reflexivity |]. split.
  - intros e es. eexists. split; [| apply Hlate].
    destruct e; reflexivity.
  - intros [] events; [| reflexivity].
    destruct events as [|[err|] es]; [reflexivity | |];
      cbn [Pop3.exports negb Pop3.handle Pop3.on_error Pop3.on_listening app
           List.filter Pop3.is_done length andb Nat.eqb];
      now rewrite Hnone.
Qed.

End Further.
